(** * capture.c: a single-frame V4L2 capture run, embedded in Rocq

    The program of [capture.c] talks to the kernel (open, ioctl, mmap,
    select, munmap, close) and to the C library (fopen, fwrite, fclose).
    Every such call is an interaction with the environment: the program
    hands over arguments, the environment answers with a return value,
    possibly an [errno] and possibly data written through a pointer.

    The embedding threads a [world] through the C functions with a small
    monad.  The world holds the four file-scope variables of the program,
    [errno], the contents of the mapped region and of [frame.jpg], the
    bytes the C library holds for the file it has open, the
    chronological list of calls performed so far, and the answers the
    environment is still going to give (its [script]).  A call made when
    the script is empty leaves the run [Pending]: the process is still
    inside that call.

    Diagnostic output ([fprintf], [perror]) does not influence control flow
    and is left out; it is taken to leave [errno] as it found it.  A call
    that fails sets [errno] to a positive number, a call that succeeds
    leaves it alone, and [errno] is 0 when the program starts. *)

From Stdlib Require Import String ZArith NArith PArith List Bool Lia.
Import ListNotations.
Local Open Scope Z_scope.

(** ** Constants of the kernel and C library headers *)

Module Hdr.
(** <errno.h> *)
Definition EINTR : Z := 4.
Definition EIO : Z := 5.
Definition EAGAIN : Z := 11.
Definition EACCES : Z := 13.

(** <linux/videodev2.h> *)
Definition V4L2_CAP_VIDEO_CAPTURE : Z := 0x00000001.
Definition V4L2_CAP_STREAMING : Z := 0x04000000.
Definition V4L2_BUF_TYPE_VIDEO_CAPTURE : Z := 1.
Definition V4L2_MEMORY_MMAP : Z := 1.
Definition V4L2_FIELD_INTERLACED : Z := 4.
Definition v4l2_fourcc (a b c d : Z) : Z :=
  Z.lor a (Z.lor (Z.shiftl b 8) (Z.lor (Z.shiftl c 16) (Z.shiftl d 24))).
(** 'M' 'J' 'P' 'G' *)
Definition V4L2_PIX_FMT_MJPEG : Z := v4l2_fourcc 77 74 80 71.

(** <fcntl.h> *)
Definition O_RDWR : Z := 0x2.
Definition O_NONBLOCK : Z := 0x800.

(** <stdio.h>, <sys/mman.h> *)
Definition NULL : Z := 0.
Definition MAP_FAILED : Z := -1.
End Hdr.
Import Hdr.

(** capture.c, lines 35-37 *)
Definition VIDEO_DEV : string := "/dev/video0".
Definition OUTPUT_IMG : string := "frame.jpg".
Definition STORE_AFTER_X_FRAMES : Z := 5.

(** ** C values and the structures passed to ioctl *)

(** An automatic variable holds an indeterminate value until it is
    assigned. *)
Inductive val : Type :=
| Vundef
| Vint (z : Z).

Record v4l2_format : Type := mkFormat {
  fmt_type : val;
  fmt_width : val;
  fmt_height : val;
  fmt_pixelformat : val;
  fmt_field : val
}.

Record v4l2_requestbuffers : Type := mkReq {
  req_count : val;
  req_type : val;
  req_memory : val
}.

Record v4l2_buffer : Type := mkBuf {
  buf_type : val;
  buf_memory : val;
  buf_index : val;
  buf_bytesused : val
}.

(** [struct v4l2_buffer buf;] without initialiser. *)
Definition buf_uninit : v4l2_buffer := mkBuf Vundef Vundef Vundef Vundef.
(** [struct v4l2_buffer buf = {0};] *)
Definition buf_zero : v4l2_buffer :=
  mkBuf (Vint 0) (Vint 0) (Vint 0) (Vint 0).

Definition with_type (t : Z) (b : v4l2_buffer) : v4l2_buffer :=
  mkBuf (Vint t) (buf_memory b) (buf_index b) (buf_bytesused b).
Definition with_memory (m : Z) (b : v4l2_buffer) : v4l2_buffer :=
  mkBuf (buf_type b) (Vint m) (buf_index b) (buf_bytesused b).
Definition with_index (i : Z) (b : v4l2_buffer) : v4l2_buffer :=
  mkBuf (buf_type b) (buf_memory b) (Vint i) (buf_bytesused b).
Definition with_bytesused (n : Z) (b : v4l2_buffer) : v4l2_buffer :=
  mkBuf (buf_type b) (buf_memory b) (buf_index b) (Vint n).

(** ** Calls and answers *)

Inductive call : Type :=
| sys_open (path : string) (flags mode : Z)
| VIDIOC_QUERYCAP
| VIDIOC_S_FMT (f : v4l2_format)
| VIDIOC_REQBUFS (r : v4l2_requestbuffers)
| VIDIOC_QUERYBUF (b : v4l2_buffer)
| sys_mmap (len off : Z)
| VIDIOC_QBUF (b : v4l2_buffer)
| VIDIOC_STREAMON (t : val)
| sys_select (tv_sec tv_usec : Z)
| VIDIOC_DQBUF (b : v4l2_buffer)
| libc_fopen (path mode : string)
| libc_fwrite (data : list Byte.byte) (size nmemb : Z)
| libc_fclose
| VIDIOC_STREAMOFF (t : val)
| sys_munmap (addr len : Z)
| sys_close (fd : Z).

(** The environment either lets a call succeed with a non-negative value
    or makes it fail with a (positive) error number. *)
Inductive status : Type :=
| Ret (n : N)
| Fail (e : positive).

(** An answer: the status and whatever the call stores through its
    pointer argument when it succeeds.  A call reads the fields it has a
    use for. *)
Record reply : Type := mkReply {
  rc : status;
  out_caps : Z;              (* QUERYCAP: cap.capabilities *)
  out_length : Z;            (* QUERYBUF: buf.length *)
  out_offset : Z;            (* QUERYBUF: buf.m.offset *)
  out_index : Z;             (* DQBUF: buf.index *)
  out_bytesused : Z;         (* DQBUF: buf.bytesused *)
  out_frame : list Byte.byte;(* DQBUF: what the driver left in the buffer *)
  out_flushed : Z            (* fclose that fails: how many of the bytes
                                held for the file reached it all the same *)
}.

Definition event : Type := (call * reply)%type.

Definition succeeded (r : reply) : bool :=
  match rc r with Ret _ => true | Fail _ => false end.

(** Return value of a call that yields an [int] (or, for mmap, a pointer
    with [MAP_FAILED] = -1). *)
Definition retval (r : reply) : Z :=
  match rc r with Ret n => Z.of_N n | Fail _ => -1 end.

(** Return value of a call that yields a pointer, [NULL] on failure. *)
Definition retptr (r : reply) : Z :=
  match rc r with Ret n => Z.of_N n | Fail _ => NULL end.

(** ** The world *)

Record world : Type := mkWorld {
  _fd : Z;                           (* static int _fd = 0; *)
  _buffer : Z;                       (* static void* _buffer = NULL; *)
  _len_buff : Z;                     (* static unsigned int _len_buff = 0; *)
  frames_received : Z;               (* static int frames_received = 0; *)
  errno : Z;
  mapping : list Byte.byte;          (* bytes visible at _buffer *)
  frame_jpg : option (list Byte.byte); (* the file frame.jpg, if it exists *)
  stream : list Byte.byte;           (* bytes fwrite has taken for the open
                                        file and fclose has yet to deliver *)
  trace : list event;                (* calls made so far, oldest first *)
  script : list reply                (* answers still to come *)
}.

Definition init_world (f0 : option (list Byte.byte)) (s : list reply) : world :=
  mkWorld 0 NULL 0 0 0 [] f0 [] [] s.

Definition set_fd (v : Z) (w : world) : world :=
  mkWorld v (_buffer w) (_len_buff w) (frames_received w) (errno w)
          (mapping w) (frame_jpg w) (stream w) (trace w) (script w).
Definition set_buffer (v : Z) (w : world) : world :=
  mkWorld (_fd w) v (_len_buff w) (frames_received w) (errno w)
          (mapping w) (frame_jpg w) (stream w) (trace w) (script w).
Definition set_len_buff (v : Z) (w : world) : world :=
  mkWorld (_fd w) (_buffer w) v (frames_received w) (errno w)
          (mapping w) (frame_jpg w) (stream w) (trace w) (script w).
Definition set_frames_received (v : Z) (w : world) : world :=
  mkWorld (_fd w) (_buffer w) (_len_buff w) v (errno w)
          (mapping w) (frame_jpg w) (stream w) (trace w) (script w).

(** ** What the environment does to the world *)

(** Conversions at the call [process_image(_buffer, buf.bytesused)]
    (__u32 to int) and at [fwrite(data, size, 1, file)] (int to size_t). *)
Definition to_int (z : Z) : Z :=
  let u := z mod 2 ^ 32 in if u <? 2 ^ 31 then u else u - 2 ^ 32.
Definition to_size_t (z : Z) : Z := z mod 2 ^ 64.

(** [fwrite(data, size, nmemb, file)]: the status says how many bytes the
    stream accepted; they are the leading bytes of [data]. *)
Definition fwrite_accepted (size nmemb : Z) (r : reply) : Z :=
  match rc r with
  | Ret k => Z.min (Z.of_N k) (size * nmemb)
  | Fail _ => 0
  end.

(** Number of complete objects written, the return value of [fwrite]. *)
Definition fwrite_result (size nmemb : Z) (r : reply) : Z :=
  if size =? 0 then 0 else fwrite_accepted size nmemb r / size.

(** The C library holds what [fwrite] has taken until the stream is
    closed.  [fopen] with mode "wb" creates the file or cuts it to length
    zero; [fwrite] adds to what is held; [fclose] hands it to the file:
    all of it when it succeeds, a leading part of it, as the environment
    says, when it fails. *)
Definition stream_effect (c : call) (r : reply) (held : list Byte.byte)
    : list Byte.byte :=
  match c with
  | libc_fopen _ _ => if retptr r =? NULL then held else []
  | libc_fwrite data size nmemb =>
      held ++ firstn (Z.to_nat (fwrite_accepted size nmemb r)) data
  | libc_fclose => []
  | _ => held
  end.

Definition file_effect (c : call) (r : reply) (held : list Byte.byte)
    (f : option (list Byte.byte)) : option (list Byte.byte) :=
  match c with
  | libc_fopen _ _ => if retptr r =? NULL then f else Some []
  | libc_fclose =>
      match f with
      | Some old =>
          Some (old ++ if succeeded r then held
                       else firstn (Z.to_nat (out_flushed r)) held)
      | None => None
      end
  | _ => f
  end.

Definition mapping_effect (c : call) (r : reply) (m : list Byte.byte)
    : list Byte.byte :=
  match c with
  | VIDIOC_DQBUF _ => if succeeded r then out_frame r else m
  | _ => m
  end.

Definition errno_effect (r : reply) (e : Z) : Z :=
  match rc r with Ret _ => e | Fail n => Z.pos n end.

(** The world after call [c] got answer [r], the rest of the script being
    [rest]. *)
Definition after_call (c : call) (r : reply) (rest : list reply) (w : world)
    : world :=
  mkWorld (_fd w) (_buffer w) (_len_buff w) (frames_received w)
          (errno_effect r (errno w))
          (mapping_effect c r (mapping w))
          (file_effect c r (stream w) (frame_jpg w))
          (stream_effect c r (stream w))
          (trace w ++ [(c, r)])
          rest.

(** ** The monad *)

Inductive outcome (A : Type) : Type :=
| Done (a : A) (w : world)
| Pending (w : world).
Arguments Done {A} a w.
Arguments Pending {A} w.

Definition M (A : Type) : Type := world -> outcome A.

Definition ret {A} (a : A) : M A := fun w => Done a w.

Definition bind {A B} (m : M A) (k : A -> M B) : M B :=
  fun w => match m w with
           | Done a w' => k a w'
           | Pending w' => Pending w'
           end.

Definition gets {A} (f : world -> A) : M A := fun w => Done (f w) w.
Definition modify (f : world -> world) : M unit := fun w => Done tt (f w).

Definition syscall (c : call) : M reply :=
  fun w => match script w with
           | [] => Pending w
           | r :: rest => Done r (after_call c r rest w)
           end.

Definition final {A} (o : outcome A) : world :=
  match o with Done _ w => w | Pending w => w end.

Declare Scope monad_scope.
Delimit Scope monad_scope with monad.
Notation "x <- m ;; k" := (bind m (fun x => k))
  (at level 61, m at next level, right associativity) : monad_scope.
Notation "m ;; k" := (bind m (fun _ => k))
  (at level 61, right associativity) : monad_scope.
Local Open Scope monad_scope.

(** ** The functions of capture.c *)

Definition open_device : M Z :=
  r <- syscall (sys_open VIDEO_DEV (Z.lor O_RDWR O_NONBLOCK) 0) ;;
  modify (set_fd (retval r)) ;;
  fd <- gets _fd ;;
  if fd <? 0 then gets errno else ret 0.

Definition init_device : M Z :=
  r <- syscall VIDIOC_QUERYCAP ;;
  if retval r <? 0 then gets errno
  else
    let capabilities := out_caps r in
    if Z.land capabilities V4L2_CAP_VIDEO_CAPTURE =? 0 then ret (-1)
    else if Z.land capabilities V4L2_CAP_STREAMING =? 0 then ret (-1)
    else
      let format := mkFormat (Vint V4L2_BUF_TYPE_VIDEO_CAPTURE)
                             (Vint 640) (Vint 480)
                             (Vint V4L2_PIX_FMT_MJPEG)
                             (Vint V4L2_FIELD_INTERLACED) in
      r <- syscall (VIDIOC_S_FMT format) ;;
      if retval r <? 0 then gets errno else ret 0.

Definition init_mmap : M Z :=
  let req := mkReq (Vint 1) (Vint V4L2_BUF_TYPE_VIDEO_CAPTURE)
                   (Vint V4L2_MEMORY_MMAP) in
  r <- syscall (VIDIOC_REQBUFS req) ;;
  if retval r <? 0 then gets errno
  else
    let buf := with_index 0
                 (with_memory V4L2_MEMORY_MMAP
                    (with_type V4L2_BUF_TYPE_VIDEO_CAPTURE buf_zero)) in
    r <- syscall (VIDIOC_QUERYBUF buf) ;;
    if retval r <? 0 then gets errno
    else
      modify (set_len_buff (out_length r)) ;;
      m <- syscall (sys_mmap (out_length r) (out_offset r)) ;;
      modify (set_buffer (retval m)) ;;
      p <- gets _buffer ;;
      if p =? MAP_FAILED then gets errno else ret 0.

Definition start_capturing : M Z :=
  let buf := with_index 0
               (with_memory V4L2_MEMORY_MMAP
                  (with_type V4L2_BUF_TYPE_VIDEO_CAPTURE buf_uninit)) in
  r <- syscall (VIDIOC_QBUF buf) ;;
  if retval r <? 0 then gets errno
  else
    let type := Vint V4L2_BUF_TYPE_VIDEO_CAPTURE in
    r <- syscall (VIDIOC_STREAMON type) ;;
    if retval r <? 0 then gets errno else ret 0.

(** [data] is given as the bytes behind the pointer; [size] is an [int]. *)
Definition process_image (data : list Byte.byte) (size : Z) : M Z :=
  f <- syscall (libc_fopen "frame.jpg" "wb") ;;
  let file := retptr f in
  if file =? NULL then ret (-1)
  else
    wr <- syscall (libc_fwrite data (to_size_t size) 1) ;;
    let objects_written := fwrite_result (to_size_t size) 1 wr in
    syscall libc_fclose ;;
    ret 0.

(** [buf] of [read_frame] before the dequeue: only [type] and [memory]
    are assigned. *)
Definition read_frame_buf : v4l2_buffer :=
  with_memory V4L2_MEMORY_MMAP
    (with_type V4L2_BUF_TYPE_VIDEO_CAPTURE buf_uninit).

(** The same after a successful dequeue: the driver has filled it in. *)
Definition dequeued_buf (r : reply) : v4l2_buffer :=
  with_bytesused (out_bytesused r) (with_index (out_index r) read_frame_buf).

Definition read_frame : M Z :=
  let buf := read_frame_buf in
  r <- syscall (VIDIOC_DQBUF buf) ;;
  if retval r <? 0 then
    e <- gets errno ;;
    if e =? EAGAIN then ret 0 else ret e
  else
    let buf := dequeued_buf r in
    modify (fun w => set_frames_received (frames_received w + 1) w) ;;
    n <- gets frames_received ;;
    if n =? STORE_AFTER_X_FRAMES then
      data <- gets mapping ;;
      process_image data (to_int (out_bytesused r)) ;;
      ret 1
    else
      q <- syscall (VIDIOC_QBUF buf) ;;
      if retval q <? 0 then gets errno else ret 0.

(** The [for (;;)] of [main_loop].  [Some v] stands for [return v] out of
    [main_loop], [None] for [break].  Every turn makes a [select] call, so
    a [fuel] above the length of the script is never used up. *)
Fixpoint select_loop (fuel : nat) : M (option Z) :=
  match fuel with
  | O => fun w => Pending w
  | S fuel' =>
      s <- syscall (sys_select 2 0) ;;
      let r := retval s in
      if -1 =? r then
        e <- gets errno ;;
        if EINTR =? e then select_loop fuel' else ret (Some e)
      else if 0 =? r then
        e <- gets errno ;;
        ret (Some e)
      else
        x <- read_frame ;;
        if negb (x =? 0) then ret None else select_loop fuel'
  end.

(** [while (count-- > 0) { for (;;) {...} return 0; }]: the body of the
    [while] ends in [return 0], so it is run for the first value of
    [count] only. *)
Definition main_loop_from (count : Z) : M Z :=
  if count >? 0 then
    fuel <- gets (fun w => S (length (script w))) ;;
    x <- select_loop fuel ;;
    match x with
    | Some v => ret v
    | None => ret 0
    end
  else
    (* control would reach the end of a non-void function *)
    ret 0.

Definition main_loop : M Z := main_loop_from 70.

Definition stop_capturing : M Z :=
  let type := Vundef in
  r <- syscall (VIDIOC_STREAMOFF type) ;;
  if retval r <? 0 then ret (-1) else ret 0.

Definition uninit_mmap : M Z :=
  a <- gets _buffer ;;
  l <- gets _len_buff ;;
  r <- syscall (sys_munmap a l) ;;
  if -1 =? retval r then ret (-1)
  else modify (set_buffer NULL) ;; ret 0.

Definition close_device : M Z :=
  fd <- gets _fd ;;
  r <- syscall (sys_close fd) ;;
  if -1 =? retval r then ret (-1) else ret 0.

Definition main : M Z :=
  x <- open_device ;;
  if negb (x =? 0) then ret (-1)
  else
    x <- init_device ;;
    if negb (x =? 0) then close_device ;; ret (-1)
    else
      x <- init_mmap ;;
      if negb (x =? 0) then close_device ;; ret (-1)
      else
        x <- start_capturing ;;
        if negb (x =? 0) then uninit_mmap ;; close_device ;; ret (-1)
        else
          x <- main_loop ;;
          if negb (x =? 0) then uninit_mmap ;; close_device ;; ret (-1)
          else
            x <- stop_capturing ;;
            if negb (x =? 0) then uninit_mmap ;; close_device ;; ret (-1)
            else
              x <- uninit_mmap ;;
              if negb (x =? 0) then close_device ;; ret (-1)
              else
                x <- close_device ;;
                if negb (x =? 0) then ret (-1) else ret 0.

(** A run of the program: [frame.jpg] starts as [f0], the environment
    answers from [s]. *)
Definition run (f0 : option (list Byte.byte)) (s : list reply) : outcome Z :=
  main (init_world f0 s).

(** ** Building scripts *)

Definition answer (st : status) : reply := mkReply st 0 0 0 0 0 [] 0.
Definition ok : reply := answer (Ret 0).
Definition okv (n : N) : reply := answer (Ret n).
Definition fails (e : positive) : reply := answer (Fail e).
Definition caps (c : Z) : reply := mkReply (Ret 0) c 0 0 0 0 [] 0.
Definition bufinfo (len off : Z) : reply :=
  mkReply (Ret 0) 0 len off 0 0 [] 0.
Definition filled (index bytesused : Z) (bytes : list Byte.byte) : reply :=
  mkReply (Ret 0) 0 0 0 index bytesused bytes 0.
(** An [fclose] that fails after [n] of the held bytes reached the file. *)
Definition close_fails (e : positive) (n : Z) : reply :=
  mkReply (Fail e) 0 0 0 0 0 [] n.

(** Answers that bring the program from [open] to a started stream. *)
Definition setup_ok : list reply :=
  [ okv 3;                                   (* open *)
    caps (Z.lor V4L2_CAP_VIDEO_CAPTURE V4L2_CAP_STREAMING);
    ok;                                      (* S_FMT *)
    ok;                                      (* REQBUFS *)
    bufinfo 8 0;                             (* QUERYBUF *)
    okv 4096;                                (* mmap *)
    ok;                                      (* QBUF *)
    ok ].                                    (* STREAMON *)

(** One readiness wait that ends with a frame in the buffer, and the
    re-queueing of the buffer. *)
Definition frame_round (bytes : list Byte.byte) (used : Z) : list reply :=
  [ okv 1; filled 0 used bytes; ok ].

(** One readiness wait after which the dequeue would block. *)
Definition would_block_round : list reply := [ okv 1; fails 11 ].

Fixpoint would_block_rounds (n : nat) : list reply :=
  match n with
  | O => []
  | S n' => would_block_round ++ would_block_rounds n'
  end.

Definition jpeg : list Byte.byte :=
  [Byte.xff; Byte.xd8; Byte.xff; Byte.xe0; Byte.x00; Byte.x10; Byte.xff; Byte.xd9].

Definition teardown_ok : list reply := [ ok; ok; ok ].

Definition happy_script : list reply :=
  setup_ok
  ++ frame_round jpeg 8 ++ frame_round jpeg 8 ++ frame_round jpeg 8
  ++ frame_round jpeg 8
  ++ [ okv 1; filled 0 6 jpeg; okv 7; okv 6; ok ]
  ++ teardown_ok.

(** ** Observing a trace *)

Definition count (p : event -> bool) (l : list event) : nat :=
  length (filter p l).

Definition is_open_ok (e : event) : bool :=
  match fst e with sys_open _ _ _ => succeeded (snd e) | _ => false end.
Definition is_mmap_ok (e : event) : bool :=
  match fst e with sys_mmap _ _ => succeeded (snd e) | _ => false end.
Definition is_streamon_ok (e : event) : bool :=
  match fst e with VIDIOC_STREAMON _ => succeeded (snd e) | _ => false end.
Definition is_dqbuf (e : event) : bool :=
  match fst e with VIDIOC_DQBUF _ => true | _ => false end.
Definition is_dqbuf_ok (e : event) : bool :=
  match fst e with VIDIOC_DQBUF _ => succeeded (snd e) | _ => false end.
Definition is_qbuf (e : event) : bool :=
  match fst e with VIDIOC_QBUF _ => true | _ => false end.
Definition is_select (e : event) : bool :=
  match fst e with sys_select _ _ => true | _ => false end.
Definition is_file_call (e : event) : bool :=
  match fst e with
  | libc_fopen _ _ | libc_fwrite _ _ _ | libc_fclose => true
  | _ => false
  end.
Definition is_streamoff (e : event) : bool :=
  match fst e with VIDIOC_STREAMOFF _ => true | _ => false end.
Definition is_munmap (e : event) : bool :=
  match fst e with sys_munmap _ _ => true | _ => false end.
Definition is_close (e : event) : bool :=
  match fst e with sys_close _ => true | _ => false end.

(** The acquisitions and releases a trace contains, in order: an open or
    mmap counts when it succeeded, a munmap or close whenever it is
    called. *)
Inductive mark : Type := Opened | Mapped | Unmap | Close.

Definition mark_of (e : event) : list mark :=
  match fst e with
  | sys_open _ _ _ => if succeeded (snd e) then [Opened] else []
  | sys_mmap _ _ => if succeeded (snd e) then [Mapped] else []
  | sys_munmap _ _ => [Unmap]
  | sys_close _ => [Close]
  | _ => []
  end.

Definition lifecycle (l : list event) : list mark := flat_map mark_of l.

Definition marks (w : world) : list mark := lifecycle (trace w).

Definition mark_eqb (a b : mark) : bool :=
  match a, b with
  | Opened, Opened | Mapped, Mapped | Unmap, Unmap | Close, Close => true
  | _, _ => false
  end.

Definition occurrences (m : mark) (ms : list mark) : nat :=
  length (filter (mark_eqb m) ms).

(** Nothing acquired; a descriptor opened and closed; or a descriptor
    opened, a buffer mapped and unmapped, and the descriptor closed. *)
Definition balanced (ms : list mark) : Prop :=
  ms = [] \/ ms = [Opened; Close] \/ ms = [Opened; Mapped; Unmap; Close].

(** What ties the frame counter, the trace and [frame.jpg] together at
    every point of a run that started with [frame.jpg] being [f0]. *)
Definition persist_inv (f0 : option (list Byte.byte)) (w : world) : Prop :=
  frames_received w = Z.of_nat (count is_dqbuf_ok (trace w)) /\
  frames_received w <= STORE_AFTER_X_FRAMES /\
  (frames_received w < STORE_AFTER_X_FRAMES -> frame_jpg w = f0) /\
  (forall l1 e l2, trace w = l1 ++ e :: l2 -> is_file_call e = true ->
     count is_dqbuf_ok l1 = Z.to_nat STORE_AFTER_X_FRAMES).

(** ** Weakest preconditions

    [wp m Q R w]: running [m] from [w] either finishes with a value and a
    world that satisfy [Q], or stays pending in a world that satisfies
    [R]. *)

Definition wp {A} (m : M A) (Q : A -> world -> Prop) (R : world -> Prop)
    (w : world) : Prop :=
  match m w with
  | Done a w' => Q a w'
  | Pending w' => R w'
  end.

Definition any_world : world -> Prop := fun _ => True.

(** A computation only takes answers off the script, and is pending only
    once the script is empty. *)
Definition consumes {A} (m : M A) : Prop :=
  forall w, wp m (fun _ w' => (length (script w') <= length (script w))%nat)
                 (fun w' => script w' = []) w.

(** A computation that neither acquires nor releases. *)
Definition keeps_marks {A} (m : M A) : Prop :=
  forall w, wp m (fun _ w' => marks w' = marks w) any_world w.

(** A computation that neither dequeues nor touches the output file. *)
Definition quiet {A} (m : M A) : Prop :=
  forall f0 w, persist_inv f0 w ->
    wp m (fun _ w' => persist_inv f0 w' /\
                      frames_received w' = frames_received w)
         (persist_inv f0) w.


(** Four frames dequeued and queued again, then the wait times out. *)
Definition four_frames_then_timeout : list reply :=
  setup_ok
  ++ frame_round jpeg 8 ++ frame_round jpeg 8 ++ frame_round jpeg 8
  ++ frame_round jpeg 8
  ++ [ okv 0 ] ++ teardown_ok.

(** Four frames, then the fifth, followed by the given answers to fopen,
    fwrite and fclose. *)
Definition five_frames (persist : list reply) : list reply :=
  frame_round jpeg 8 ++ frame_round jpeg 8 ++ frame_round jpeg 8
  ++ frame_round jpeg 8
  ++ [ okv 1; filled 0 6 jpeg ] ++ persist.

(** The scripts at which the run departs from what is expected of it. *)
Module Faulty.
(** [select] fails with EIO. *)
Definition select_error : list reply :=
  setup_ok ++ [ fails 5 ] ++ [ ok; ok ].
(** A dequeue would block, then the next wait times out. *)
Definition timeout_after_would_block : list reply :=
  setup_ok ++ would_block_round ++ [ okv 0 ] ++ [ ok; ok ].
(** The very first wait times out. *)
Definition timeout_at_once : list reply :=
  setup_ok ++ [ okv 0 ] ++ teardown_ok.
(** The first dequeue fails with EIO. *)
Definition dequeue_error : list reply :=
  setup_ok ++ [ okv 1; fails 5 ] ++ teardown_ok.
(** The first frame is dequeued, queueing it again fails with EIO. *)
Definition requeue_error : list reply :=
  setup_ok ++ [ okv 1; filled 0 8 jpeg; fails 5 ] ++ teardown_ok.
(** [fopen] fails with EACCES at the fifth frame. *)
Definition fopen_error : list reply :=
  setup_ok ++ five_frames [ fails 13 ] ++ teardown_ok.
(** [fwrite] takes three of the six bytes of the fifth frame. *)
Definition short_write : list reply :=
  setup_ok ++ five_frames [ okv 7; okv 3; ok ] ++ teardown_ok.
(** [fclose] fails with EIO. *)
Definition fclose_error : list reply :=
  setup_ok ++ five_frames [ okv 7; okv 6; fails 5 ] ++ teardown_ok.
(** Seventy-one waits after which the dequeue would block, then five
    frames. *)
Definition many_would_blocks : list reply :=
  setup_ok ++ would_block_rounds 71
  ++ five_frames [ okv 7; okv 6; ok ] ++ teardown_ok.
End Faulty.

Definition set_script (s : list reply) (w : world) : world :=
  mkWorld (_fd w) (_buffer w) (_len_buff w) (frames_received w) (errno w)
          (mapping w) (frame_jpg w) (stream w) (trace w) s.
(** ** Further observations of a trace *)

(** The calls whose failure [main] answers with exit code -1 wherever
    they are made. *)
Definition is_control (c : call) : bool :=
  match c with
  | sys_open _ _ _ | VIDIOC_QUERYCAP | VIDIOC_S_FMT _ | VIDIOC_REQBUFS _
  | VIDIOC_QUERYBUF _ | sys_mmap _ _ | VIDIOC_STREAMON _
  | VIDIOC_STREAMOFF _ | sys_munmap _ _ | sys_close _ => true
  | _ => false
  end.

Definition is_control_failure (e : event) : bool :=
  is_control (fst e) && negb (succeeded (snd e)).

Definition ctl_clean (w : world) : Prop :=
  count is_control_failure (trace w) = 0%nat.

(** *** What a call relies on *)

Definition is_open_with (fd : Z) (e : event) : bool :=
  match fst e with
  | sys_open _ _ _ => succeeded (snd e) && (retval (snd e) =? fd)
  | _ => false
  end.
Definition is_capable (e : event) : bool :=
  match fst e with
  | VIDIOC_QUERYCAP =>
      succeeded (snd e)
      && negb (Z.land (out_caps (snd e)) V4L2_CAP_VIDEO_CAPTURE =? 0)
      && negb (Z.land (out_caps (snd e)) V4L2_CAP_STREAMING =? 0)
  | _ => false
  end.
Definition is_s_fmt_ok (e : event) : bool :=
  match fst e with VIDIOC_S_FMT _ => succeeded (snd e) | _ => false end.
Definition is_reqbufs_ok (e : event) : bool :=
  match fst e with VIDIOC_REQBUFS _ => succeeded (snd e) | _ => false end.
Definition is_querybuf_with (len off : Z) (e : event) : bool :=
  match fst e with
  | VIDIOC_QUERYBUF _ =>
      succeeded (snd e) && (out_length (snd e) =? len)
      && (out_offset (snd e) =? off)
  | _ => false
  end.
Definition is_mmap_with (addr len : Z) (e : event) : bool :=
  match fst e with
  | sys_mmap l _ => succeeded (snd e) && (retval (snd e) =? addr) && (l =? len)
  | _ => false
  end.
Definition is_qbuf_ok (e : event) : bool :=
  match fst e with VIDIOC_QBUF _ => succeeded (snd e) | _ => false end.
Definition is_select_ready (e : event) : bool :=
  match fst e with
  | sys_select _ _ => succeeded (snd e) && negb (0 =? retval (snd e))
  | _ => false
  end.
Definition is_fopen_ok (e : event) : bool :=
  match fst e with
  | libc_fopen _ _ => negb (retptr (snd e) =? NULL)
  | _ => false
  end.
Definition is_fwrite (e : event) : bool :=
  match fst e with libc_fwrite _ _ _ => true | _ => false end.

(** The most recent call satisfies [p]. *)
Definition last_is (p : event -> bool) (past : list event) : bool :=
  match rev past with
  | e :: _ => p e
  | [] => false
  end.

(** What must have happened before the call of event [e], [past] being
    the calls made before it. *)
Definition prereq (past : list event) (e : event) : bool :=
  match fst e with
  | sys_open _ _ _ => match past with [] => true | _ :: _ => false end
  | VIDIOC_QUERYCAP => existsb is_open_ok past
  | VIDIOC_S_FMT _ => last_is is_capable past
  | VIDIOC_REQBUFS _ => existsb is_s_fmt_ok past
  | VIDIOC_QUERYBUF _ => last_is is_reqbufs_ok past
  | sys_mmap len off => last_is (is_querybuf_with len off) past
  | VIDIOC_QBUF _ => existsb is_mmap_ok past
  | VIDIOC_STREAMON _ => last_is is_qbuf_ok past
  | sys_select _ _ => existsb is_streamon_ok past
  | VIDIOC_DQBUF _ => existsb is_streamon_ok past && last_is is_select_ready past
  | libc_fopen _ _ => last_is is_dqbuf_ok past
  | libc_fwrite _ _ _ => last_is is_fopen_ok past
  | libc_fclose => last_is is_fwrite past
  | VIDIOC_STREAMOFF _ => existsb is_streamon_ok past
  | sys_munmap addr len => existsb (is_mmap_with addr len) past
  | sys_close fd => existsb (is_open_with fd) past
  end.

(** What must not have happened before the call of event [e]: nothing is
    called once the descriptor has been closed, and nothing but [close]
    once the buffer has been unmapped. *)
Definition allowed (past : list event) (e : event) : bool :=
  match fst e with
  | sys_close _ => negb (existsb is_close past)
  | _ => negb (existsb is_close past) && negb (existsb is_munmap past)
  end.

(** Every call of the trace had what it relies on and was allowed. *)
Definition chain_ok (t : list event) : Prop :=
  forall l1 e l2, t = l1 ++ e :: l2 ->
    prereq l1 e = true /\ allowed l1 e = true.

Definition seen (p : event -> bool) (w : world) : Prop :=
  existsb p (trace w) = true.

(** The stages of a run: the descriptor is open and not yet closed; in
    addition nothing has been unmapped; the format is set; the buffer is
    mapped; the stream is started. *)
Definition st_closing (w : world) : Prop :=
  chain_ok (trace w) /\ seen (is_open_with (_fd w)) w /\
  existsb is_close (trace w) = false.
Definition st_open (w : world) : Prop :=
  st_closing w /\ existsb is_munmap (trace w) = false.
Definition st_format (w : world) : Prop :=
  st_open w /\ seen is_s_fmt_ok w.
Definition st_mapped (w : world) : Prop :=
  st_open w /\ seen (is_mmap_with (_buffer w) (_len_buff w)) w.
Definition st_streaming (w : world) : Prop :=
  st_mapped w /\ seen is_streamon_ok w.

(** A readiness wait or a dequeue attempt. *)
Definition is_wait (e : event) : bool := is_select e || is_dqbuf e.

(** Waits and dequeue attempts are made only while fewer frames than the
    target have been dequeued. *)
Definition wait_ok (t : list event) : Prop :=
  forall l1 e l2, t = l1 ++ e :: l2 -> is_wait e = true ->
    (count is_dqbuf_ok l1 < Z.to_nat STORE_AFTER_X_FRAMES)%nat.

(** A computation that neither waits nor dequeues. *)
Definition waitless {A} (m : M A) : Prop :=
  forall w, wait_ok (trace w) ->
    wp m (fun _ w' => wait_ok (trace w')) (fun w' => wait_ok (trace w')) w.

(** A [select] that did not find the descriptor readable. *)
Definition is_select_unready (e : event) : bool :=
  match fst e with
  | sys_select _ _ => retval (snd e) <=? 0
  | _ => false
  end.

(** *** Which calls a function makes *)

Definition open_call (c : call) : bool :=
  match c with sys_open _ _ _ => true | _ => false end.
Definition init_device_call (c : call) : bool :=
  match c with VIDIOC_QUERYCAP | VIDIOC_S_FMT _ => true | _ => false end.
Definition init_mmap_call (c : call) : bool :=
  match c with
  | VIDIOC_REQBUFS _ | VIDIOC_QUERYBUF _ | sys_mmap _ _ => true
  | _ => false
  end.
Definition start_call (c : call) : bool :=
  match c with VIDIOC_QBUF _ | VIDIOC_STREAMON _ => true | _ => false end.
Definition file_call (c : call) : bool :=
  match c with
  | libc_fopen _ _ | libc_fwrite _ _ _ | libc_fclose => true
  | _ => false
  end.
Definition loop_call (c : call) : bool :=
  match c with
  | sys_select _ _ | VIDIOC_DQBUF _ | VIDIOC_QBUF _ => true
  | _ => file_call c
  end.
Definition stop_call (c : call) : bool :=
  match c with VIDIOC_STREAMOFF _ => true | _ => false end.
Definition munmap_call (c : call) : bool :=
  match c with sys_munmap _ _ => true | _ => false end.
Definition close_call (c : call) : bool :=
  match c with sys_close _ => true | _ => false end.

(** Whether it returns or is left pending, [m] adds to the trace only
    calls that satisfy [P]. *)
Definition adds_only (P : call -> bool) (w w' : world) : Prop :=
  exists evs, trace w' = trace w ++ evs /\
              forallb (fun e => P (fst e)) evs = true.

Definition only_calls (P : call -> bool) {A} (m : M A) : Prop :=
  forall w, wp m (fun _ w' => adds_only P w w') (adds_only P w) w.

(** * Lemmas *)

Section WpRules.
Context {A B : Type}.

Lemma wp_ret (a : A) Q R w : Q a w -> wp (ret a) Q R w.
Proof. exact (fun H => H). Qed.

Lemma wp_bind (m : M A) (k : A -> M B) Q R w :
  wp m (fun a => wp (k a) Q R) R w -> wp (bind m k) Q R w.
Proof. unfold wp, bind. destruct (m w); auto. Qed.

Lemma wp_gets (f : world -> A) Q R w : Q (f w) w -> wp (gets f) Q R w.
Proof. exact (fun H => H). Qed.

Lemma wp_mono (m : M A) (Q Q' : A -> world -> Prop) (R R' : world -> Prop) w :
  wp m Q R w ->
  (forall a w', Q a w' -> Q' a w') ->
  (forall w', R w' -> R' w') ->
  wp m Q' R' w.
Proof. unfold wp. destruct (m w); auto. Qed.

Lemma wp_done (m : M A) Q R w a w' :
  wp m Q R w -> m w = Done a w' -> Q a w'.
Proof. unfold wp. intros H E. now rewrite E in H. Qed.

Lemma wp_pending (m : M A) Q R w w' :
  wp m Q R w -> m w = Pending w' -> R w'.
Proof. unfold wp. intros H E. now rewrite E in H. Qed.

Lemma wp_final (m : M A) (I : world -> Prop) w :
  wp m (fun _ => I) I w -> I (final (m w)).
Proof. unfold wp, final. destruct (m w); auto. Qed.
End WpRules.

Lemma wp_modify (f : world -> world) Q R w :
  Q tt (f w) -> wp (modify f) Q R w.
Proof. exact (fun H => H). Qed.

Lemma wp_syscall (c : call) Q R w :
  (script w = [] -> R w) ->
  (forall r rest, script w = r :: rest -> Q r (after_call c r rest w)) ->
  wp (syscall c) Q R w.
Proof.
  unfold wp, syscall. intros Hp Hd.
  destruct (script w) as [|r rest]; auto.
Qed.

(** Field projections of an updated world. *)
Ltac wsimpl :=
  cbn [script trace errno frames_received _fd _buffer _len_buff mapping
       frame_jpg stream after_call set_fd set_buffer set_len_buff
       set_frames_received] in *.

(** One step of symbolic execution of a monadic term. *)
Ltac wp_step :=
  lazymatch goal with
  | |- wp (bind _ _) _ _ _ => apply wp_bind
  | |- wp (ret _) _ _ _ => apply wp_ret
  | |- wp (gets _) _ _ _ => apply wp_gets
  | |- wp (modify _) _ _ _ => apply wp_modify
  | |- wp (syscall _) _ _ _ =>
      let H := fresh "Hscr" in
      apply wp_syscall; [ intros H | intros ?r ?rest H ]
  | |- wp (if ?b then _ else _) _ _ _ => destruct b eqn:?
  | |- wp (match ?x with Some _ => _ | None => _ end) _ _ _ => destruct x
  end; wsimpl.

Ltac wp_run := repeat wp_step.

(** *** Return values *)

Lemma retval_neg r : (retval r <? 0) = negb (succeeded r).
Proof.
  unfold retval, succeeded. destruct (rc r) as [n|e]; [|reflexivity].
  cbv [negb]. apply Z.ltb_ge. apply N2Z.is_nonneg.
Qed.

Lemma retval_m1 r : (-1 =? retval r) = negb (succeeded r).
Proof.
  unfold retval, succeeded. destruct (rc r) as [n|e]; [|reflexivity].
  cbv [negb]. apply Z.eqb_neq. pose proof (N2Z.is_nonneg n). lia.
Qed.

Lemma retval_map_failed r : (retval r =? MAP_FAILED) = negb (succeeded r).
Proof. rewrite Z.eqb_sym. apply retval_m1. Qed.

Lemma errno_after_fail c r rest w :
  succeeded r = false -> errno (after_call c r rest w) <> 0.
Proof.
  unfold succeeded, after_call, errno_effect; simpl.
  destruct (rc r); [discriminate|]. intros _. discriminate.
Qed.

(** *** Counting and marks *)

Lemma count_app p l1 l2 : count p (l1 ++ l2) = (count p l1 + count p l2)%nat.
Proof. unfold count. now rewrite filter_app, length_app. Qed.

Lemma count_snoc p l e :
  count p (l ++ [e]) = (count p l + if p e then 1 else 0)%nat.
Proof. rewrite count_app. unfold count. simpl. now destruct (p e). Qed.

Lemma lifecycle_app l1 l2 : lifecycle (l1 ++ l2) = lifecycle l1 ++ lifecycle l2.
Proof. apply flat_map_app. Qed.

Lemma lifecycle_snoc l e : lifecycle (l ++ [e]) = lifecycle l ++ mark_of e.
Proof. rewrite lifecycle_app. simpl. now rewrite app_nil_r. Qed.

(** *** The script only shrinks, and a pending run has used it up *)


Ltac script_facts :=
  subst;
  repeat match goal with
         | H : script _ = _ |- _ => rewrite H in *; clear H
         end;
  cbn [length] in *; try reflexivity; try assumption; try lia.

Lemma process_image_consumes data size : consumes (process_image data size).
Proof.
  intros w. unfold process_image. wp_run; script_facts.
Qed.

Lemma read_frame_consumes : consumes read_frame.
Proof.
  intros w. unfold read_frame. wp_run; script_facts.
  eapply wp_mono; [apply process_image_consumes| |]; wsimpl; intros; wp_run; script_facts.
Qed.

Lemma select_loop_unfold fuel :
  select_loop (S fuel) =
  (s <- syscall (sys_select 2 0) ;;
   let r := retval s in
   if -1 =? r then
     e <- gets errno ;;
     if EINTR =? e then select_loop fuel else ret (Some e)
   else if 0 =? r then
     e <- gets errno ;;
     ret (Some e)
   else
     x <- read_frame ;;
     if negb (x =? 0) then ret None else select_loop fuel).
Proof. reflexivity. Qed.

Lemma bind_syscall {B} c (k : reply -> M B) w :
  bind (syscall c) k w =
  match script w with
  | [] => Pending w
  | r :: rest => k r (after_call c r rest w)
  end.
Proof. unfold bind, syscall. now destruct (script w). Qed.

(** Fuel above the length of the script is as good as any other. *)
Lemma select_loop_fuel n : forall m w,
  (length (script w) < n)%nat -> (length (script w) < m)%nat ->
  select_loop n w = select_loop m w.
Proof.
  induction n as [|n IH]; intros [|m] w Hn Hm; try lia.
  rewrite !select_loop_unfold, !bind_syscall.
  destruct (script w) as [|s rest] eqn:Hs; [reflexivity|].
  cbn [length] in Hn, Hm.
  set (w1 := after_call _ s rest w).
  assert (H1 : script w1 = rest) by reflexivity.
  cbv zeta. destruct (-1 =? retval s).
  { unfold bind, gets. destruct (EINTR =? errno w1); [|reflexivity].
    apply IH; rewrite H1; lia. }
  destruct (0 =? retval s); [reflexivity|].
  unfold bind.
  pose proof (read_frame_consumes w1) as Hc. unfold wp in Hc.
  destruct (read_frame w1) as [x w2|w2]; [|reflexivity].
  destruct (negb (x =? 0)); [reflexivity|].
  apply IH; rewrite H1 in Hc; lia.
Qed.

Lemma select_loop_consumes fuel : forall w,
  (length (script w) < fuel)%nat ->
  wp (select_loop fuel)
     (fun _ w' => (length (script w') <= length (script w))%nat)
     (fun w' => script w' = []) w.
Proof.
  induction fuel as [|fuel IH]; intros w Hf; [lia|].
  rewrite select_loop_unfold. wp_run; script_facts.
  - eapply wp_mono; [apply IH| |]; wsimpl; intros; script_facts.
  - eapply wp_mono; [apply read_frame_consumes| |]; wsimpl; intros; script_facts.
    wp_run; script_facts.
    eapply wp_mono; [apply IH| |]; wsimpl; intros; script_facts.
Qed.

Lemma main_loop_consumes : consumes main_loop.
Proof.
  intros w. unfold main_loop, main_loop_from. wp_run.
  - eapply wp_mono; [apply select_loop_consumes; lia| |]; wsimpl; intros;
      wp_run; script_facts.
  - lia.
Qed.

(** Using a lemma about a callee at a call site. *)
Ltac wp_call L :=
  eapply wp_mono; [apply L | wsimpl; intros ? ? ? | wsimpl; intros ? ?].

Lemma open_device_consumes : consumes open_device.
Proof. intros w. unfold open_device. wp_run; script_facts. Qed.

Lemma init_device_consumes : consumes init_device.
Proof. intros w. unfold init_device. wp_run; script_facts. Qed.

Lemma init_mmap_consumes : consumes init_mmap.
Proof. intros w. unfold init_mmap. wp_run; script_facts. Qed.

Lemma start_capturing_consumes : consumes start_capturing.
Proof. intros w. unfold start_capturing. wp_run; script_facts. Qed.

Lemma stop_capturing_consumes : consumes stop_capturing.
Proof. intros w. unfold stop_capturing. wp_run; script_facts. Qed.

Lemma uninit_mmap_consumes : consumes uninit_mmap.
Proof. intros w. unfold uninit_mmap. wp_run; script_facts. Qed.

Lemma close_device_consumes : consumes close_device.
Proof. intros w. unfold close_device. wp_run; script_facts. Qed.

Ltac wp_consumes :=
  repeat first
    [ wp_step
    | wp_call open_device_consumes | wp_call init_device_consumes
    | wp_call init_mmap_consumes | wp_call start_capturing_consumes
    | wp_call main_loop_consumes | wp_call stop_capturing_consumes
    | wp_call uninit_mmap_consumes | wp_call close_device_consumes ].

Lemma main_consumes : consumes main.
Proof. intros w. unfold main. wp_consumes; script_facts. Qed.

(** A run is pending only when the environment has no answer left. *)
Lemma pending_run_is_blocked f0 s w : run f0 s = Pending w -> script w = [].
Proof.
  intros E. exact (wp_pending _ _ _ _ _ (main_consumes (init_world f0 s)) E).
Qed.

(** *** Acquisitions and releases of each function *)

(** Turn the tests the code makes on return values into facts about the
    status of the answer, then split on the status. *)
Ltac status_cases :=
  rewrite ?retval_neg, ?retval_m1, ?retval_map_failed in *;
  unfold succeeded, errno_effect, retptr in *;
  repeat match goal with
         | H : context [rc ?r] |- _ => destruct (rc r)
         | |- context [rc ?r] => destruct (rc r)
         end;
  cbn [negb] in *; try discriminate.

Ltac marks_leaf :=
  unfold marks; wsimpl; rewrite ?lifecycle_snoc; unfold mark_of;
  cbn [fst snd]; status_cases; rewrite ?app_nil_r, <- ?app_assoc;
  try reflexivity; try exact I.

Lemma open_device_marks w :
  wp open_device
     (fun v w' => marks w' = marks w ++ (if v =? 0 then [Opened] else []))
     any_world w.
Proof. unfold open_device. wp_run; marks_leaf. Qed.

Lemma init_device_marks : keeps_marks init_device.
Proof. intros w. unfold init_device. wp_run; marks_leaf. Qed.

Lemma init_mmap_marks w :
  wp init_mmap
     (fun v w' => marks w' = marks w ++ (if v =? 0 then [Mapped] else []))
     any_world w.
Proof. unfold init_mmap. wp_run; marks_leaf. Qed.

Lemma start_capturing_marks : keeps_marks start_capturing.
Proof. intros w. unfold start_capturing. wp_run; marks_leaf. Qed.

Lemma process_image_marks data size : keeps_marks (process_image data size).
Proof. intros w. unfold process_image. wp_run; marks_leaf. Qed.

Lemma read_frame_marks : keeps_marks read_frame.
Proof.
  intros w. unfold read_frame. wp_run; try solve [marks_leaf].
  wp_call process_image_marks; [|exact I].
  wp_run. etransitivity; [eassumption|]. marks_leaf.
Qed.

Lemma select_loop_marks fuel : keeps_marks (select_loop fuel).
Proof.
  induction fuel as [|fuel IH]; intros w; [exact I|].
  rewrite select_loop_unfold. wp_run; try solve [marks_leaf].
  - wp_call IH; [|exact I]. etransitivity; [eassumption|]. marks_leaf.
  - wp_call read_frame_marks; [|exact I]. wp_run.
    + etransitivity; [eassumption|]. marks_leaf.
    + wp_call IH; [|exact I].
      etransitivity; [eassumption|]. etransitivity; [eassumption|]. marks_leaf.
Qed.

Lemma main_loop_marks : keeps_marks main_loop.
Proof.
  intros w. unfold main_loop, main_loop_from. wp_run.
  - wp_call select_loop_marks; [|exact I]. wp_run; assumption.
  - reflexivity.
Qed.

Lemma stop_capturing_marks : keeps_marks stop_capturing.
Proof. intros w. unfold stop_capturing. wp_run; marks_leaf. Qed.

Lemma uninit_mmap_marks w :
  wp uninit_mmap (fun _ w' => marks w' = marks w ++ [Unmap]) any_world w.
Proof. unfold uninit_mmap. wp_run; marks_leaf. Qed.

Lemma close_device_marks w :
  wp close_device (fun _ w' => marks w' = marks w ++ [Close]) any_world w.
Proof. unfold close_device. wp_run; marks_leaf. Qed.

Ltac wp_marks :=
  repeat first
    [ wp_step
    | wp_call open_device_marks | wp_call init_device_marks
    | wp_call init_mmap_marks | wp_call start_capturing_marks
    | wp_call main_loop_marks | wp_call stop_capturing_marks
    | wp_call uninit_mmap_marks | wp_call close_device_marks ].

(** The whole run: nothing acquired, or a descriptor opened and closed, or
    a descriptor opened, a buffer mapped, unmapped, and the descriptor
    closed. *)
Lemma main_marks w :
  marks w = [] ->
  wp main
     (fun _ w' => marks w' = [] \/ marks w' = [Opened; Close] \/
                  marks w' = [Opened; Mapped; Unmap; Close])
     any_world w.
Proof.
  intros H0. unfold main. wp_marks; try exact I.
  all: repeat match goal with
         | H : negb (?x =? 0) = _ |- _ =>
             destruct (x =? 0); cbn [negb] in H; try discriminate; clear H
         end.
  all: repeat match goal with
         | H : marks ?a = _ |- _ => rewrite H; clear H
         end.
  all: rewrite ?app_nil_r; cbn [app]; auto.
Qed.

(** *** From marks back to events *)

Lemma occurrences_app m a b :
  occurrences m (a ++ b) = (occurrences m a + occurrences m b)%nat.
Proof. unfold occurrences. now rewrite filter_app, length_app. Qed.

Lemma count_cons p e l :
  count p (e :: l) = ((if p e then 1 else 0) + count p l)%nat.
Proof. unfold count. simpl. now destruct (p e). Qed.

Lemma lifecycle_cons e l : lifecycle (e :: l) = mark_of e ++ lifecycle l.
Proof. reflexivity. Qed.

Lemma count_close_marks l : count is_close l = occurrences Close (lifecycle l).
Proof.
  induction l as [|[c r] l IH]; [reflexivity|].
  rewrite count_cons, lifecycle_cons, occurrences_app, IH. f_equal.
  unfold is_close, mark_of; cbn [fst snd].
  destruct c; try reflexivity; now destruct (succeeded r).
Qed.

Lemma count_munmap_marks l : count is_munmap l = occurrences Unmap (lifecycle l).
Proof.
  induction l as [|[c r] l IH]; [reflexivity|].
  rewrite count_cons, lifecycle_cons, occurrences_app, IH. f_equal.
  unfold is_munmap, mark_of; cbn [fst snd].
  destruct c; try reflexivity; now destruct (succeeded r).
Qed.

(** Where a mark sits in a balanced list. *)
Lemma balanced_split ms a x b :
  balanced ms -> ms = a ++ x :: b ->
  match x with
  | Opened => a = [] /\ (b = [Close] \/ b = [Mapped; Unmap; Close])
  | Mapped => a = [Opened] /\ b = [Unmap; Close]
  | Unmap => a = [Opened; Mapped] /\ b = [Close]
  | Close => (a = [Opened] \/ a = [Opened; Mapped; Unmap]) /\ b = []
  end.
Proof.
  intros [H|[H|H]] E; rewrite H in E; clear H.
  - destruct a; discriminate.
  - destruct a as [|m1 [|m2 [|m3 a]]]; cbn [app] in E; inversion E; subst;
      auto; destruct a; discriminate.
  - destruct a as [|m1 [|m2 [|m3 [|m4 [|m5 a]]]]]; cbn [app] in E;
      inversion E; subst; auto; destruct a; discriminate.
Qed.

Lemma trace_split_marks w l1 e l2 :
  trace w = l1 ++ e :: l2 ->
  marks w = lifecycle l1 ++ mark_of e ++ lifecycle l2.
Proof.
  intros E. unfold marks. now rewrite E, lifecycle_app, lifecycle_cons.
Qed.

(** C7. On every exit path of a run: once an open has succeeded there is
    no close before it and exactly one after it; once an mmap has
    succeeded there is no munmap before it and exactly one after it; and
    every munmap, failed or not, has no close before it and exactly one
    close after it. *)
Theorem release_discipline f0 s c w (Hrun : run f0 s = Done c w) :
  (forall l1 e l2, trace w = l1 ++ e :: l2 -> is_open_ok e = true ->
     count is_close l1 = 0%nat /\ count is_close l2 = 1%nat) /\
  (forall l1 e l2, trace w = l1 ++ e :: l2 -> is_mmap_ok e = true ->
     count is_munmap l1 = 0%nat /\ count is_munmap l2 = 1%nat) /\
  (forall l1 e l2, trace w = l1 ++ e :: l2 -> is_munmap e = true ->
     count is_close l1 = 0%nat /\ count is_close l2 = 1%nat).
Proof.
  assert (Hb : balanced (marks w)).
  { exact (wp_done _ _ _ _ _ _ (main_marks (init_world f0 s) eq_refl) Hrun). }
  split; [|split]; intros l1 [k r] l2 E Hk;
    apply trace_split_marks in E;
    rewrite ?count_close_marks, ?count_munmap_marks.
  - assert (Hm : mark_of (k, r) = [Opened]).
    { unfold is_open_ok, mark_of in *; cbn [fst snd] in *.
      destruct k; try discriminate. now rewrite Hk. }
    rewrite Hm in E. apply (balanced_split _ _ _ _ Hb) in E.
    destruct E as [-> [-> | ->]]; split; reflexivity.
  - assert (Hm : mark_of (k, r) = [Mapped]).
    { unfold is_mmap_ok, mark_of in *; cbn [fst snd] in *.
      destruct k; try discriminate. now rewrite Hk. }
    rewrite Hm in E. apply (balanced_split _ _ _ _ Hb) in E.
    destruct E as [-> ->]; split; reflexivity.
  - assert (Hm : mark_of (k, r) = [Unmap]).
    { unfold is_munmap, mark_of in *; cbn [fst snd] in *.
      destruct k; try discriminate. reflexivity. }
    rewrite Hm in E. apply (balanced_split _ _ _ _ Hb) in E.
    destruct E as [-> ->]; split; reflexivity.
Qed.
Lemma release_discipline_witness :
  exists w e l2,
    run None happy_script = Done 0 w /\
    trace w = [] ++ e :: l2 /\
    is_open_ok e = true /\
    count is_close [] = 0%nat /\ count is_close l2 = 1%nat.
Proof.
  exists (final (run None happy_script)).
  exists (hd (sys_close 0, ok) (trace (final (run None happy_script)))).
  exists (tl (trace (final (run None happy_script)))).
  assert (Hrun : run None happy_script = Done 0 (final (run None happy_script)))
    by (vm_compute; reflexivity).
  assert (Hsplit : trace (final (run None happy_script)) =
                   [] ++ hd (sys_close 0, ok) (trace (final (run None happy_script)))
                      :: tl (trace (final (run None happy_script))))
    by (vm_compute; reflexivity).
  assert (Hopen : is_open_ok
                    (hd (sys_close 0, ok) (trace (final (run None happy_script))))
                  = true)
    by (vm_compute; reflexivity).
  split; [exact Hrun|]. split; [exact Hsplit|]. split; [exact Hopen|].
  destruct (release_discipline None happy_script 0 _ Hrun) as (H & _ & _).
  exact (H _ _ _ Hsplit Hopen).
Defined.

(** *** One turn of the readiness loop *)

Lemma select_ready sel : 0 < retval sel ->
  (-1 =? retval sel) = false /\ (0 =? retval sel) = false.
Proof. intros H. split; apply Z.eqb_neq; lia. Qed.

Lemma would_block_turn (fuel : nat) (w : world) (sel dq : reply)
    (rest : list reply) (p : positive) :
  script w = sel :: dq :: rest ->
  0 < retval sel ->
  rc dq = Fail p ->
  Z.pos p = EAGAIN ->
  let w1 := after_call (sys_select 2 0) sel (dq :: rest) w in
  let w2 := after_call (VIDIOC_DQBUF read_frame_buf) dq rest w1 in
  read_frame w1 = Done 0 w2 /\
  select_loop (S fuel) w = select_loop fuel w2.
Proof.
  intros Hs Hready Hfail Hagain w1 w2.
  assert (Hrf : read_frame w1 = Done 0 w2).
  { unfold read_frame. rewrite bind_syscall. cbn [script w1 after_call].
    fold w1. fold w2. rewrite retval_neg. unfold succeeded. rewrite Hfail.
    cbn [negb]. unfold bind, gets, ret.
    replace (errno w2) with EAGAIN; [reflexivity|].
    unfold w2, after_call, errno_effect; cbn [errno]. now rewrite Hfail. }
  split; [exact Hrf|].
  rewrite select_loop_unfold, bind_syscall, Hs. fold w1. cbv zeta.
  destruct (select_ready sel Hready) as [-> ->].
  unfold bind at 1. now rewrite Hrf.
Qed.

(** C8. A dequeue that reports EAGAIN makes [read_frame] return 0 with
    the frame counter as it was and no buffer queued, and the loop goes on
    to its next readiness wait. *)
Theorem would_block_resumes_wait (fuel : nat) (w : world) (sel dq : reply)
    (rest : list reply) (p : positive)
    (Hs : script w = sel :: dq :: rest)
    (Hready : 0 < retval sel)
    (Hfail : rc dq = Fail p)
    (Hagain : Z.pos p = EAGAIN) :
  let w1 := after_call (sys_select 2 0) sel (dq :: rest) w in
  let w2 := after_call (VIDIOC_DQBUF read_frame_buf) dq rest w1 in
  read_frame w1 = Done 0 w2 /\
  frames_received w2 = frames_received w /\
  count is_qbuf (trace w2) = count is_qbuf (trace w) /\
  select_loop (S fuel) w = select_loop fuel w2.
Proof.
  intros w1 w2.
  destruct (would_block_turn fuel w sel dq rest p Hs Hready Hfail Hagain)
    as [Hrf Hloop].
  split; [exact Hrf|]. split; [reflexivity|]. split; [|exact Hloop].
  unfold w2, w1; wsimpl. now rewrite !count_snoc, !Nat.add_0_r.
Qed.

Lemma would_block_resumes_wait_witness :
  let w := init_world None (would_block_round ++ [okv 0]) in
  select_loop 3 w = Done (Some EAGAIN)
    (after_call (sys_select 2 0) (okv 0) []
       (after_call (VIDIOC_DQBUF read_frame_buf) (fails 11) [okv 0]
          (after_call (sys_select 2 0) (okv 1) [fails 11; okv 0] w))).
Proof.
  cbv zeta.
  destruct (would_block_resumes_wait 2 (init_world None (would_block_round ++ [okv 0]))
              (okv 1) (fails 11) [okv 0] 11%positive
              eq_refl eq_refl eq_refl eq_refl) as (_ & _ & _ & H).
  rewrite H. reflexivity.
Defined.

(** *** The frame counter, the trace and the output file *)

Lemma snoc_split {X} (l l1 l2 : list X) (x e : X) :
  l ++ [x] = l1 ++ e :: l2 ->
  (l2 = [] /\ l = l1 /\ x = e) \/
  (exists l2', l2 = l2' ++ [x] /\ l = l1 ++ e :: l2').
Proof.
  destruct (exists_last (l := e :: l2)) as (l2' & y & E); [discriminate|].
  intros H. destruct l2' as [|e' l2'].
  - left. cbn [app] in E. injection E as -> ->.
    apply app_inj_tail in H. destruct H as [-> ->]. auto.
  - right. cbn [app] in E. injection E as <- ->.
    rewrite app_comm_cons, app_assoc in H.
    apply app_inj_tail in H. destruct H as [-> ->]. eauto.
Qed.

Lemma count_le_split p l1 (e : event) l2 :
  (count p l1 <= count p (l1 ++ e :: l2))%nat.
Proof. rewrite count_app. lia. Qed.

Lemma count_pos_split p l :
  count p l <> 0%nat -> exists l1 e l2, l = l1 ++ e :: l2 /\ p e = true.
Proof.
  unfold count. intros H.
  destruct (filter p l) as [|e fl] eqn:E; [now elim H|].
  assert (Hin : In e (filter p l)) by (rewrite E; now left).
  apply filter_In in Hin. destruct Hin as [Hin Hp].
  apply in_split in Hin. destruct Hin as (l1 & l2 & ->). eauto.
Qed.

(** A call that is neither a successful dequeue nor a file operation. *)
Lemma persist_inv_neutral f0 c r rest w :
  is_dqbuf_ok (c, r) = false -> is_file_call (c, r) = false ->
  persist_inv f0 w -> persist_inv f0 (after_call c r rest w).
Proof.
  intros Hdq Hf (Hn & Hle & Hj & Hp). unfold persist_inv. wsimpl.
  rewrite count_snoc, Hdq, Nat.add_0_r. repeat split; auto.
  - intros H. rewrite <- (Hj H).
    unfold is_file_call in Hf; cbn [fst] in Hf.
    destruct c; try discriminate; reflexivity.
  - intros l1 e l2 E He. apply snoc_split in E.
    destruct E as [(_ & _ & <-) | (l2' & _ & E)]; [congruence|eauto].
Qed.

(** A file operation made while the counter stands at the target. *)
Lemma persist_inv_file f0 c r rest w :
  is_file_call (c, r) = true -> frames_received w = STORE_AFTER_X_FRAMES ->
  persist_inv f0 w -> persist_inv f0 (after_call c r rest w).
Proof.
  intros Hf H5 (Hn & Hle & Hj & Hp). unfold persist_inv. wsimpl.
  assert (Hdq : is_dqbuf_ok (c, r) = false).
  { unfold is_file_call, is_dqbuf_ok in *; cbn [fst] in *.
    destruct c; try discriminate; reflexivity. }
  rewrite count_snoc, Hdq, Nat.add_0_r. repeat split; auto.
  - lia.
  - intros l1 e l2 E He. apply snoc_split in E.
    destruct E as [(_ & <- & _) | (l2' & _ & E)]; [|eauto].
    rewrite <- H5, Hn. now rewrite Nat2Z.id.
Qed.

(** A successful dequeue followed by [frames_received++]. *)
Lemma persist_inv_dequeue f0 b r rest w :
  succeeded r = true -> frames_received w < STORE_AFTER_X_FRAMES ->
  persist_inv f0 w ->
  persist_inv f0 (set_frames_received (frames_received w + 1)
                    (after_call (VIDIOC_DQBUF b) r rest w)).
Proof.
  intros Hr Hlt (Hn & Hle & Hj & Hp). unfold persist_inv. wsimpl.
  assert (Hdq : is_dqbuf_ok (VIDIOC_DQBUF b, r) = true) by exact Hr.
  rewrite count_snoc, Hdq. split; [|split; [|split]].
  - lia.
  - lia.
  - intros H. apply Hj. lia.
  - intros l1 e l2 E He. apply snoc_split in E.
    destruct E as [(_ & _ & <-) | (l2' & _ & E)]; [discriminate|eauto].
Qed.

Ltac inv_leaf :=
  wsimpl;
  repeat first
    [ assumption
    | apply persist_inv_neutral; [reflexivity | reflexivity | ] ].

Lemma process_image_inv f0 data size w :
  persist_inv f0 w -> frames_received w = STORE_AFTER_X_FRAMES ->
  wp (process_image data size) (fun _ => persist_inv f0) (persist_inv f0) w.
Proof.
  intros Hi H5. unfold process_image. wp_run;
    repeat first [ assumption
                 | apply persist_inv_file; [reflexivity | wsimpl; assumption | ] ].
Qed.

Lemma read_frame_inv f0 w :
  persist_inv f0 w -> frames_received w < STORE_AFTER_X_FRAMES ->
  wp read_frame
     (fun v w' => persist_inv f0 w' /\
                  (v = 0 -> frames_received w' < STORE_AFTER_X_FRAMES))
     (persist_inv f0) w.
Proof.
  intros Hi Hlt. unfold read_frame. wp_run.
  all: rewrite ?retval_neg in *.
  all: repeat match goal with
         | H : negb _ = true |- _ => apply negb_true_iff in H
         | H : negb _ = false |- _ => apply negb_false_iff in H
         end.
  - assumption.
  - split; [|auto]. apply persist_inv_neutral; auto.
  - split; [|auto]. apply persist_inv_neutral; auto.
  - apply Z.eqb_eq in Heqb0.
    wp_call (process_image_inv f0).
    + now apply persist_inv_dequeue.
    + assumption.
    + wp_run. split; [assumption|discriminate].
    + assumption.
  - now apply persist_inv_dequeue.
  - split.
    + apply persist_inv_neutral; auto. now apply persist_inv_dequeue.
    + intros E. exfalso.
      exact (errno_after_fail (VIDIOC_QBUF (dequeued_buf r)) r0 rest0
               (after_call (VIDIOC_DQBUF read_frame_buf) r rest w) Heqb1 E).
  - apply Z.eqb_neq in Heqb0. split.
    + apply persist_inv_neutral; auto. now apply persist_inv_dequeue.
    + intros _. unfold STORE_AFTER_X_FRAMES in *. lia.
Qed.



Ltac quiet_leaf :=
  wsimpl; try (split; [|reflexivity]);
  repeat first
    [ assumption
    | apply persist_inv_neutral; [reflexivity | reflexivity | ] ].

Lemma open_device_quiet : quiet open_device.
Proof. intros f0 w Hi. unfold open_device. wp_run; quiet_leaf. Qed.

Lemma init_device_quiet : quiet init_device.
Proof. intros f0 w Hi. unfold init_device. wp_run; quiet_leaf. Qed.

Lemma init_mmap_quiet : quiet init_mmap.
Proof. intros f0 w Hi. unfold init_mmap. wp_run; quiet_leaf. Qed.

Lemma start_capturing_quiet : quiet start_capturing.
Proof. intros f0 w Hi. unfold start_capturing. wp_run; quiet_leaf. Qed.

Lemma stop_capturing_quiet : quiet stop_capturing.
Proof. intros f0 w Hi. unfold stop_capturing. wp_run; quiet_leaf. Qed.

Lemma uninit_mmap_quiet : quiet uninit_mmap.
Proof. intros f0 w Hi. unfold uninit_mmap. wp_run; quiet_leaf. Qed.

Lemma close_device_quiet : quiet close_device.
Proof. intros f0 w Hi. unfold close_device. wp_run; quiet_leaf. Qed.

Lemma select_loop_inv f0 fuel : forall w,
  persist_inv f0 w -> frames_received w < STORE_AFTER_X_FRAMES ->
  wp (select_loop fuel) (fun _ => persist_inv f0) (persist_inv f0) w.
Proof.
  induction fuel as [|fuel IH]; intros w Hi Hlt; [exact Hi|].
  rewrite select_loop_unfold. wp_run; try solve [quiet_leaf].
  - apply IH; quiet_leaf.
  - wp_call (read_frame_inv f0); try solve [quiet_leaf].
    match goal with H : _ /\ _ |- _ => destruct H as [Hi' Hz] end.
    wp_run; [assumption|].
    apply IH; [assumption|]. apply Hz.
    match goal with H : negb (_ =? 0) = false |- _ =>
      apply negb_false_iff, Z.eqb_eq in H; exact H end.
Qed.

Lemma main_loop_inv f0 w :
  persist_inv f0 w -> frames_received w < STORE_AFTER_X_FRAMES ->
  wp main_loop (fun _ => persist_inv f0) (persist_inv f0) w.
Proof.
  intros Hi Hlt. unfold main_loop, main_loop_from. wp_run; [|assumption].
  wp_call (select_loop_inv f0); try assumption. wp_run; assumption.
Qed.

Lemma persist_inv_init f0 s : persist_inv f0 (init_world f0 s).
Proof.
  unfold persist_inv, init_world; wsimpl. repeat split; try easy.
  intros [|? ?] ? ? ?; discriminate.
Qed.

Ltac wp_quiet f0 :=
  repeat first
    [ wp_step
    | wp_call (open_device_quiet f0) | wp_call (init_device_quiet f0)
    | wp_call (init_mmap_quiet f0) | wp_call (start_capturing_quiet f0)
    | wp_call (stop_capturing_quiet f0)
    | wp_call (uninit_mmap_quiet f0) | wp_call (close_device_quiet f0)
    | match goal with H : _ /\ _ |- _ => destruct H end
    | assumption ].

Lemma main_inv f0 w :
  persist_inv f0 w -> frames_received w < STORE_AFTER_X_FRAMES ->
  wp main (fun _ => persist_inv f0) (persist_inv f0) w.
Proof.
  intros Hi Hlt. unfold main. wp_quiet f0.
  wp_call (main_loop_inv f0); try assumption; [congruence|].
  wp_quiet f0.
Qed.

Lemma run_inv f0 s : persist_inv f0 (final (run f0 s)).
Proof.
  unfold run. apply wp_final, main_inv; [apply persist_inv_init|reflexivity].
Qed.

(** *** The two ways a dequeued frame is handled *)

Lemma to_size_to_int n : 0 <= n < 2 ^ 31 -> to_size_t (to_int n) = n.
Proof.
  intros H. unfold to_size_t, to_int. cbv zeta.
  rewrite (Z.mod_small n (2 ^ 32)) by lia.
  destruct (n <? 2 ^ 31) eqn:E; [|apply Z.ltb_ge in E; lia].
  apply Z.mod_small. lia.
Qed.

Lemma read_frame_dequeued w dq rest :
  script w = dq :: rest -> succeeded dq = true ->
  read_frame w =
  (let w1 := set_frames_received (frames_received w + 1)
               (after_call (VIDIOC_DQBUF read_frame_buf) dq rest w) in
   if frames_received w + 1 =? STORE_AFTER_X_FRAMES then
     (process_image (mapping w1) (to_int (out_bytesused dq)) ;; ret 1) w1
   else
     (q <- syscall (VIDIOC_QBUF (dequeued_buf dq)) ;;
      if retval q <? 0 then gets errno else ret 0) w1).
Proof.
  intros Hs Hok. unfold read_frame. rewrite bind_syscall, Hs.
  rewrite retval_neg, Hok. cbn [negb]. cbv zeta.
  unfold bind at 1. unfold modify. unfold bind at 1. unfold gets at 1.
  wsimpl. destruct (frames_received w + 1 =? STORE_AFTER_X_FRAMES);
    reflexivity.
Qed.

Lemma process_image_stored data size w fo wr cl rest :
  script w = fo :: wr :: cl :: rest -> retptr fo <> NULL ->
  process_image data size w =
  Done 0 (after_call libc_fclose cl rest
            (after_call (libc_fwrite data (to_size_t size) 1) wr (cl :: rest)
               (after_call (libc_fopen "frame.jpg" "wb") fo (wr :: cl :: rest) w))).
Proof.
  intros Hs Hfo. unfold process_image. rewrite bind_syscall, Hs.
  apply Z.eqb_neq in Hfo. rewrite Hfo. cbv zeta.
  rewrite bind_syscall. cbn [script after_call].
  rewrite bind_syscall. cbn [script after_call]. reflexivity.
Qed.

Lemma process_image_frames data size w :
  wp (process_image data size)
     (fun _ w' => frames_received w' = frames_received w)
     (fun w' => frames_received w' = frames_received w) w.
Proof. unfold process_image. wp_run; reflexivity. Qed.

Lemma read_frame_counts w dq rest :
  script w = dq :: rest -> succeeded dq = true ->
  frames_received (final (read_frame w)) = frames_received w + 1.
Proof.
  intros Hs Hok. rewrite (read_frame_dequeued w dq rest Hs Hok). cbv zeta.
  destruct (frames_received w + 1 =? STORE_AFTER_X_FRAMES).
  - apply (wp_final _ (fun w' => frames_received w' = frames_received w + 1)).
    wp_run. wp_call process_image_frames; [wp_run|]; wsimpl; congruence.
  - apply (wp_final _ (fun w' => frames_received w' = frames_received w + 1)).
    wp_run; reflexivity.
Qed.

(** C6 (amended).  The frame counter is 0 when the run starts and a
    successful dequeue adds exactly one to it.  If that makes it 5, the
    turn, once it returns, returns 1 and ends the loop with the counter at
    5; and if [fopen] succeeds, [fwrite] takes all the bytes, [fclose]
    succeeds and [bytesused] is below 2^31, the file then holds exactly
    the first [bytesused] bytes of the buffer.  If it does not make it 5,
    the buffer is queued again with the type, the memory kind, the index
    and the [bytesused] the dequeue came back with, and if that QBUF
    succeeds the loop goes on.  In every run the counter is the number of
    dequeues that have succeeded, and whenever a file operation is made
    exactly five have succeeded and the counter is 5. *)
Theorem frame_selection_policy (fuel : nat) (w : world) (sel dq : reply)
    (rest : list reply)
    (Hs : script w = sel :: dq :: rest)
    (Hready : 0 < retval sel)
    (Hok : succeeded dq = true) :
  let w1 := after_call (sys_select 2 0) sel (dq :: rest) w in
  let w2 := set_frames_received (frames_received w + 1)
              (after_call (VIDIOC_DQBUF read_frame_buf) dq rest w1) in
  (forall f0 s, frames_received (init_world f0 s) = 0) /\
  frames_received (final (read_frame w1)) = frames_received w + 1 /\
  (frames_received w + 1 = STORE_AFTER_X_FRAMES ->
   forall v w',
     read_frame w1 = Done v w' ->
     v = 1 /\
     select_loop (S fuel) w = Done None w' /\
     frames_received w' = STORE_AFTER_X_FRAMES) /\
  (frames_received w + 1 = STORE_AFTER_X_FRAMES ->
   forall fo wr cl rest' k,
     rest = fo :: wr :: cl :: rest' ->
     retptr fo <> NULL -> rc wr = Ret k -> succeeded cl = true ->
     0 <= out_bytesused dq < 2 ^ 31 -> out_bytesused dq <= Z.of_N k ->
     exists w',
       select_loop (S fuel) w = Done None w' /\
       frames_received w' = STORE_AFTER_X_FRAMES /\
       frame_jpg w' =
         Some (firstn (Z.to_nat (out_bytesused dq)) (out_frame dq)) /\
       script w' = rest') /\
  (frames_received w + 1 <> STORE_AFTER_X_FRAMES ->
   forall q rest',
     rest = q :: rest' -> succeeded q = true ->
     select_loop (S fuel) w =
     select_loop fuel
       (after_call
          (VIDIOC_QBUF
             (mkBuf (Vint V4L2_BUF_TYPE_VIDEO_CAPTURE) (Vint V4L2_MEMORY_MMAP)
                    (Vint (out_index dq)) (Vint (out_bytesused dq))))
          q rest' w2)) /\
  (forall f0 s,
     frames_received (final (run f0 s)) =
     Z.of_nat (count is_dqbuf_ok (trace (final (run f0 s))))) /\
  (forall f0 s l1 e l2,
     trace (final (run f0 s)) = l1 ++ e :: l2 -> is_file_call e = true ->
     count is_dqbuf_ok l1 = Z.to_nat STORE_AFTER_X_FRAMES /\
     frames_received (final (run f0 s)) = STORE_AFTER_X_FRAMES).
Proof.
  intros w1 w2.
  assert (Hs1 : script w1 = dq :: rest) by reflexivity.
  assert (Hloop : select_loop (S fuel) w =
                  (x <- read_frame ;;
                   if negb (x =? 0) then ret None else select_loop fuel) w1).
  { rewrite select_loop_unfold, bind_syscall, Hs. fold w1. cbv zeta.
    now destruct (select_ready sel Hready) as [-> ->]. }
  split; [reflexivity|]. split; [exact (read_frame_counts w1 dq rest Hs1 Hok)|].
  split; [|split; [|split; [|split]]].
  - intros H5 v w' Hrf.
    assert (Hv : v = 1 /\ frames_received w' = STORE_AFTER_X_FRAMES).
    { pose proof Hrf as Hrf'.
      rewrite (read_frame_dequeued w1 dq _ Hs1 Hok) in Hrf'. cbv zeta in Hrf'.
      change (frames_received w1) with (frames_received w) in Hrf'.
      apply Z.eqb_eq in H5. rewrite H5 in Hrf'. fold w2 in Hrf'.
      unfold bind in Hrf'.
      pose proof (process_image_frames (mapping w2)
                    (to_int (out_bytesused dq)) w2) as Hfr.
      unfold wp in Hfr.
      destruct (process_image (mapping w2) (to_int (out_bytesused dq)) w2)
        as [x w3|w3]; [|discriminate].
      injection Hrf' as <- <-. split; [reflexivity|].
      rewrite Hfr. now apply Z.eqb_eq. }
    destruct Hv as [-> H5']. split; [reflexivity|]. split; [|exact H5'].
    rewrite Hloop. unfold bind at 1. now rewrite Hrf.
  - intros H5 fo wr cl rest' k -> Hfo Hwr Hcl Hrange Hk.
    rewrite Hloop. unfold bind at 1.
    rewrite (read_frame_dequeued w1 dq _ Hs1 Hok). cbv zeta.
    change (frames_received w1) with (frames_received w).
    apply Z.eqb_eq in H5. rewrite H5. fold w2. unfold bind at 1.
    rewrite (process_image_stored _ _ w2 fo wr cl rest' eq_refl Hfo).
    eexists. split; [reflexivity|]. wsimpl.
    split; [now apply Z.eqb_eq|]. split; [|reflexivity].
    assert (Hmap : mapping w2 = out_frame dq).
    { unfold w2, w1; wsimpl. unfold mapping_effect. now rewrite Hok. }
    rewrite Hmap. unfold file_effect, stream_effect.
    apply Z.eqb_neq in Hfo. rewrite Hfo, Hcl.
    cbn [app]. rewrite to_size_to_int by assumption.
    unfold fwrite_accepted. rewrite Hwr.
    rewrite Z.mul_1_r, Z.min_r by assumption. reflexivity.
  - intros H5 q rest' -> Hq.
    rewrite Hloop. unfold bind at 1.
    rewrite (read_frame_dequeued w1 dq _ Hs1 Hok). cbv zeta.
    change (frames_received w1) with (frames_received w).
    apply Z.eqb_neq in H5. rewrite H5. fold w2.
    rewrite bind_syscall. cbn [script w2 set_frames_received after_call].
    fold w1. fold w2. rewrite retval_neg, Hq. reflexivity.
  - intros f0 s. now destruct (run_inv f0 s) as (Hn & _).
  - intros f0 s l1 e l2 E He.
    destruct (run_inv f0 s) as (Hn & Hle & _ & Hp).
    pose proof (Hp _ _ _ E He) as H5. split; [exact H5|].
    pose proof (count_le_split is_dqbuf_ok l1 e l2) as Hc.
    rewrite <- E, H5 in Hc. unfold STORE_AFTER_X_FRAMES in *. lia.
Qed.

Lemma frame_selection_policy_witness :
  exists w',
    select_loop 1
      (set_frames_received 4
         (init_world None [okv 1; filled 0 6 jpeg; okv 7; okv 6; ok]))
    = Done None w' /\
    frames_received w' = 5 /\
    frame_jpg w' = Some (firstn 6 jpeg) /\
    script w' = [].
Proof.
  destruct (frame_selection_policy 0
              (set_frames_received 4
                 (init_world None [okv 1; filled 0 6 jpeg; okv 7; okv 6; ok]))
              (okv 1) (filled 0 6 jpeg) [okv 7; okv 6; ok]
              eq_refl eq_refl eq_refl) as (_ & _ & _ & H & _ & _ & _).
  apply (H eq_refl (okv 7) (okv 6) ok [] 6%N eq_refl).
  - discriminate.
  - reflexivity.
  - reflexivity.
  - cbn. lia.
  - cbn. lia.
Defined.

(** C6 (as stated) fails at five inputs.  With the counter at 4 and a
    frame of six bytes dequeued after a ready [select]: when [fopen]
    fails the loop ends and there is no file; when [fwrite] takes three
    bytes the file holds three; when [fclose] fails having delivered
    nothing the file is empty; and with [bytesused] 2^31 [fwrite] is asked
    for 2^64 - 2^31 bytes.  With the counter at 0 and the re-queueing QBUF
    failing, the loop ends instead of going on: the answer meant for the
    next [select] is still in the script. *)
Lemma frame_selection_policy_counterexample :
  (exists w',
     select_loop 1
       (set_frames_received 4
          (init_world None [okv 1; filled 0 6 jpeg; fails 13]))
     = Done None w' /\
     frames_received w' = 5 /\
     frame_jpg w' = None /\
     frame_jpg w' <> Some (firstn 6 jpeg)) /\
  (exists w',
     select_loop 1
       (set_frames_received 4
          (init_world None [okv 1; filled 0 6 jpeg; okv 7; okv 3; ok]))
     = Done None w' /\
     frame_jpg w' = Some (firstn 3 jpeg) /\
     frame_jpg w' <> Some (firstn 6 jpeg)) /\
  (exists w',
     select_loop 1
       (set_frames_received 4
          (init_world None
             [okv 1; filled 0 6 jpeg; okv 7; okv 6; close_fails 5 0]))
     = Done None w' /\
     frame_jpg w' = Some [] /\
     frame_jpg w' <> Some (firstn 6 jpeg)) /\
  (exists w' wr,
     select_loop 1
       (set_frames_received 4
          (init_world None
             [okv 1; filled 0 (2 ^ 31) jpeg; okv 7; fails 14; ok]))
     = Done None w' /\
     In (libc_fwrite jpeg (2 ^ 64 - 2 ^ 31) 1, wr) (trace w') /\
     2 ^ 64 - 2 ^ 31 <> 2 ^ 31 /\
     frame_jpg w' = Some []) /\
  (exists w',
     select_loop 2
       (init_world None [okv 1; filled 0 8 jpeg; fails 5; okv 1])
     = Done None w' /\
     frames_received w' = 1 /\
     script w' = [okv 1]).
Proof.
  split; [|split; [|split; [|split]]].
  - eexists. vm_compute. repeat split. discriminate.
  - eexists. vm_compute. repeat split. discriminate.
  - eexists. vm_compute. repeat split. discriminate.
  - eexists. exists (fails 14). vm_compute. repeat split.
    + right. right. right. left. reflexivity.
    + discriminate.
  - eexists. vm_compute. repeat split.
Qed.

(** C10. A run in which fewer than five dequeues have succeeded, however
    it ends or wherever it is blocked, has made no file operation and has
    left [frame.jpg] as it was. *)
Theorem output_untouched_before_fifth_frame f0 s :
  (count is_dqbuf_ok (trace (final (run f0 s))) < 5)%nat ->
  frame_jpg (final (run f0 s)) = f0 /\
  count is_file_call (trace (final (run f0 s))) = 0%nat.
Proof.
  intros Hlt. destruct (run_inv f0 s) as (Hn & _ & Hj & Hp). split.
  - apply Hj. rewrite Hn. unfold STORE_AFTER_X_FRAMES. lia.
  - destruct (Nat.eq_dec (count is_file_call (trace (final (run f0 s)))) 0)
      as [E|E]; [exact E|exfalso].
    apply count_pos_split in E. destruct E as (l1 & e & l2 & E & He).
    pose proof (Hp _ _ _ E He) as H5.
    pose proof (count_le_split is_dqbuf_ok l1 e l2) as Hc.
    rewrite <- E, H5 in Hc. unfold STORE_AFTER_X_FRAMES in Hc.
    change (Z.to_nat 5) with 5%nat in Hc. lia.
Qed.

Lemma output_untouched_before_fifth_frame_witness :
  count is_dqbuf_ok (trace (final (run (Some jpeg) four_frames_then_timeout)))
    = 4%nat /\
  frame_jpg (final (run (Some jpeg) four_frames_then_timeout)) = Some jpeg /\
  count is_file_call
    (trace (final (run (Some jpeg) four_frames_then_timeout))) = 0%nat.
Proof.
  split; [reflexivity|].
  apply output_untouched_before_fifth_frame.
  apply Nat.ltb_lt. reflexivity.
Defined.


(** *** Runs at which the program departs from its description *)

(** The run everything goes well in: five frames, the fifth stored. *)
Example happy_run :
  exists w, run None happy_script = Done 0 w /\
            frames_received w = 5 /\
            frame_jpg w = Some (firstn 6 jpeg) /\
            marks w = [Opened; Mapped; Unmap; Close] /\
            script w = [].
Proof. eexists. vm_compute. repeat split. Qed.

(** C1. A [select] that fails, or that times out while [errno] still
    holds the EAGAIN of an earlier dequeue, ends the run with the stream
    started and never stopped: the buffer is unmapped and the descriptor
    closed, no STREAMOFF is issued. *)
Theorem wait_failure_skips_stream_off :
  (let w := final (run None Faulty.select_error) in
   run None Faulty.select_error = Done (-1) w /\
   count is_streamon_ok (trace w) = 1%nat /\
   count is_streamoff (trace w) = 0%nat /\
   count is_munmap (trace w) = 1%nat /\
   count is_close (trace w) = 1%nat) /\
  (let w := final (run None Faulty.timeout_after_would_block) in
   run None Faulty.timeout_after_would_block = Done (-1) w /\
   count is_streamon_ok (trace w) = 1%nat /\
   count is_streamoff (trace w) = 0%nat /\
   count is_munmap (trace w) = 1%nat /\
   count is_close (trace w) = 1%nat).
Proof. vm_compute. repeat split. Qed.

(** C2. When the output file cannot be opened, when [fwrite] takes only
    part of the frame, and when [fclose] fails, the run still ends with
    exit code 0; in the first case there is no file, in the second the
    file holds three of the six bytes. *)
Theorem persist_failure_exits_zero :
  (exists w, run None Faulty.fopen_error = Done 0 w /\ frame_jpg w = None) /\
  (exists w, run None Faulty.short_write = Done 0 w /\
             frame_jpg w = Some (firstn 3 jpeg)) /\
  (exists w, run None Faulty.fclose_error = Done 0 w).
Proof.
  split; [|split]; eexists; vm_compute; repeat split.
Qed.

(** C3. A dequeue that fails with EIO, and a re-queueing that fails with
    EIO, both end the run with exit code 0. *)
Theorem transfer_failure_exits_zero :
  (exists w, run None Faulty.dequeue_error = Done 0 w /\ errno w = EIO) /\
  (exists w, run None Faulty.requeue_error = Done 0 w /\ errno w = EIO).
Proof.
  split; eexists; vm_compute; repeat split.
Qed.

(** C4. A readiness wait that times out while [errno] is 0 ends the run
    with exit code 0. *)
Theorem timeout_exits_zero :
  exists w, run None Faulty.timeout_at_once = Done 0 w /\
            count is_select (trace w) = 1%nat /\
            count is_dqbuf (trace w) = 0%nat /\
            frame_jpg w = None.
Proof. eexists. vm_compute. repeat split. Qed.

Lemma would_block_rounds_pending n : forall fuel w,
  script w = would_block_rounds n -> (0 < fuel)%nat ->
  exists w', select_loop (fuel + n) w = Pending w' /\
             count is_select (trace w') = (count is_select (trace w) + n)%nat.
Proof.
  induction n as [|n IH]; intros fuel w Hs Hf.
  - destruct fuel as [|fuel]; [lia|]. exists w.
    rewrite Nat.add_0_r, select_loop_unfold, bind_syscall, Hs.
    split; [reflexivity|lia].
  - cbn [would_block_rounds would_block_round app] in Hs.
    rewrite Nat.add_succ_r.
    destruct (would_block_turn (fuel + n) w (okv 1) (fails 11)
                (would_block_rounds n) 11%positive Hs eq_refl eq_refl eq_refl)
      as [_ ->].
    edestruct IH as (w' & Hp & Hc); [|exact Hf|].
    2:{ exists w'. split; [exact Hp|]. rewrite Hc. wsimpl.
        rewrite !count_snoc. cbn. lia. }
    reflexivity.
Qed.

(** C5. However many times the dequeue would block, [main_loop] goes on
    waiting; a run with 76 waits ends with the frame stored and exit code
    0; and a run whose first dequeue fails ends with exit code 0 and no
    frame stored. *)
Theorem wait_count_is_unbounded :
  (forall n f0,
     exists w', main_loop (init_world f0 (would_block_rounds n)) = Pending w' /\
                count is_select (trace w') = n) /\
  (exists w, run None Faulty.many_would_blocks = Done 0 w /\
             count is_select (trace w) = 76%nat /\
             frame_jpg w = Some (firstn 6 jpeg)) /\
  (exists w, run None Faulty.dequeue_error = Done 0 w /\
             count is_file_call (trace w) = 0%nat /\
             frame_jpg w = None).
Proof.
  split; [|split].
  - intros n f0. unfold main_loop, main_loop_from. cbn [Z.gtb Z.compare].
    unfold bind at 1. unfold gets at 1. unfold bind at 1.
    cbn [script init_world].
    assert (Hlen : S (length (would_block_rounds n)) = (S n + n)%nat).
    { induction n as [|n IHn]; [reflexivity|].
      cbn [would_block_rounds would_block_round app length]. lia. }
    rewrite Hlen.
    destruct (would_block_rounds_pending n (S n)
                (init_world f0 (would_block_rounds n)) eq_refl)
      as (w' & -> & Hc); [lia|].
    exists w'. split; [reflexivity|exact Hc].
  - eexists. vm_compute. repeat split.
  - eexists. vm_compute. repeat split.
Qed.

(** C9. [stop_capturing] issues STREAMOFF with the indeterminate value of
    its uninitialised local [type], whereas [start_capturing] issues
    STREAMON with [type] set to the video-capture type. *)
Theorem stream_off_type_is_indeterminate :
  (forall w r rest,
     trace (final (stop_capturing (set_script (r :: rest) w))) =
     trace w ++ [(VIDIOC_STREAMOFF Vundef, r)]) /\
  (forall w n r rest,
     trace (final (start_capturing
                     (set_script (answer (Ret n) :: r :: rest) w))) =
     trace w ++ [(VIDIOC_QBUF (with_index 0 read_frame_buf), answer (Ret n));
                 (VIDIOC_STREAMON (Vint V4L2_BUF_TYPE_VIDEO_CAPTURE), r)]) /\
  Vundef <> Vint V4L2_BUF_TYPE_VIDEO_CAPTURE.
Proof.
  split; [|split].
  - intros w r rest. unfold stop_capturing. rewrite bind_syscall.
    cbn [script set_script]. now destruct (retval r <? 0).
  - intros w n r rest. unfold start_capturing. rewrite bind_syscall.
    cbn [script set_script]. rewrite retval_neg. cbn [succeeded answer rc negb].
    rewrite bind_syscall. cbn [script after_call].
    destruct (retval r <? 0); cbn [final ret gets trace after_call set_script];
      now rewrite <- app_assoc.
  - discriminate.
Qed.

(** * Further properties of the functions of capture.c *)

(** *** The readiness wait ([main_loop], lines 199-211) *)

(** X1. A [select] interrupted by a signal (EINTR) is tried again: no
    dequeue is attempted, the frame counter and the output file stay as
    they are, and the loop goes on with its next turn. *)
Theorem interrupted_wait_is_retried (fuel : nat) (w : world) (sel : reply)
    (rest : list reply) (p : positive)
    (Hs : script w = sel :: rest)
    (Hfail : rc sel = Fail p)
    (Hintr : Z.pos p = EINTR) :
  let w1 := after_call (sys_select 2 0) sel rest w in
  select_loop (S fuel) w = select_loop fuel w1 /\
  frames_received w1 = frames_received w /\
  frame_jpg w1 = frame_jpg w /\
  count is_dqbuf (trace w1) = count is_dqbuf (trace w).
Proof.
  intros w1. split; [|split; [reflexivity|split; [reflexivity|]]].
  - rewrite select_loop_unfold, bind_syscall, Hs. fold w1. cbv zeta.
    unfold retval. rewrite Hfail. cbn [Z.eqb Pos.eqb].
    unfold bind, gets.
    replace (errno w1) with EINTR; [reflexivity|].
    unfold w1, after_call, errno_effect; cbn [errno]. now rewrite Hfail.
  - unfold w1; wsimpl. now rewrite count_snoc, Nat.add_0_r.
Qed.

Lemma interrupted_wait_is_retried_witness :
  select_loop 2 (init_world None [fails 4; okv 0]) =
  select_loop 1 (after_call (sys_select 2 0) (fails 4) [okv 0]
                   (init_world None [fails 4; okv 0])).
Proof.
  exact (proj1 (interrupted_wait_is_retried 1
                  (init_world None [fails 4; okv 0]) (fails 4) [okv 0]
                  4%positive eq_refl eq_refl eq_refl)).
Defined.

(** X2. When [select] fails with an error other than EINTR, [main_loop]
    returns that error number, which is not 0, after this one call.  When
    [select] times out, [main_loop] returns whatever [errno] held before
    the wait. *)
Theorem wait_failure_result (w : world) (sel : reply) (rest : list reply)
    (Hs : script w = sel :: rest) :
  let w1 := after_call (sys_select 2 0) sel rest w in
  (forall p, rc sel = Fail p -> Z.pos p <> EINTR ->
     main_loop w = Done (Z.pos p) w1 /\ Z.pos p <> 0) /\
  (rc sel = Ret 0 -> main_loop w = Done (errno w) w1).
Proof.
  intros w1.
  assert (Hml : main_loop w =
                (x <- select_loop (S (length (script w))) ;;
                 match x with Some v => ret v | None => ret 0 end) w)
    by reflexivity.
  split.
  - intros p Hfail Hne. split; [|discriminate].
    rewrite Hml. unfold bind at 1.
    rewrite select_loop_unfold, bind_syscall, Hs. fold w1. cbv zeta.
    unfold retval. rewrite Hfail. cbn [Z.eqb Pos.eqb].
    unfold bind, gets.
    replace (errno w1) with (Z.pos p)
      by (unfold w1, after_call, errno_effect; cbn [errno]; now rewrite Hfail).
    apply not_eq_sym, Z.eqb_neq in Hne. now rewrite Hne.
  - intros Hret. rewrite Hml. unfold bind at 1.
    rewrite select_loop_unfold, bind_syscall, Hs. fold w1. cbv zeta.
    unfold retval. rewrite Hret. cbn [Z.eqb Z.of_N].
    unfold bind, gets, ret.
    replace (errno w1) with (errno w)
      by (unfold w1, after_call, errno_effect; cbn [errno]; now rewrite Hret).
    reflexivity.
Qed.

Lemma wait_failure_result_witness :
  main_loop (init_world None [fails 5]) =
  Done EIO (after_call (sys_select 2 0) (fails 5) []
              (init_world None [fails 5])).
Proof.
  destruct (wait_failure_result (init_world None [fails 5]) (fails 5) []
              eq_refl) as [H _].
  apply (H 5%positive eq_refl). discriminate.
Defined.

(** *** Storing the frame ([process_image], lines 141-153) *)

(** X3. When the output file cannot be opened, [process_image] returns -1
    after that single call: nothing is written, nothing is closed, and the
    file is left as it was. *)
Theorem fopen_failure_leaves_file (data : list Byte.byte) (size : Z)
    (w : world) (fo : reply) (rest : list reply)
    (Hs : script w = fo :: rest) (Hnull : retptr fo = NULL) :
  let w1 := after_call (libc_fopen "frame.jpg" "wb") fo rest w in
  process_image data size w = Done (-1) w1 /\
  frame_jpg w1 = frame_jpg w /\
  trace w1 = trace w ++ [(libc_fopen "frame.jpg" "wb", fo)].
Proof.
  intros w1. split; [|split; [|reflexivity]].
  - unfold process_image. rewrite bind_syscall, Hs. fold w1.
    apply Z.eqb_eq in Hnull. now rewrite Hnull.
  - unfold w1; wsimpl. unfold file_effect.
    apply Z.eqb_eq in Hnull. now rewrite Hnull.
Qed.

Lemma fopen_failure_leaves_file_witness :
  process_image jpeg 8 (init_world (Some jpeg) [fails 13]) =
  Done (-1) (after_call (libc_fopen "frame.jpg" "wb") (fails 13) []
               (init_world (Some jpeg) [fails 13])).
Proof.
  exact (proj1 (fopen_failure_leaves_file jpeg 8
                  (init_world (Some jpeg) [fails 13]) (fails 13) []
                  eq_refl eq_refl)).
Defined.

Lemma fwrite_accepted_bounds size nmemb r :
  0 <= size * nmemb -> 0 <= fwrite_accepted size nmemb r <= size * nmemb.
Proof.
  intros H. unfold fwrite_accepted. destruct (rc r) as [k|e]; [|lia].
  pose proof (N2Z.is_nonneg k). lia.
Qed.

(** X4. When the output file can be opened, [process_image] returns 0
    whatever [fwrite] and [fclose] answer, and the file then holds a
    leading part of the data, at most [size] bytes long: what the file
    held before is gone, and with [size] 0 the file is empty. *)
Theorem stored_file_is_prefix (data : list Byte.byte) (size : Z)
    (w : world) (fo wr cl : reply) (rest : list reply)
    (Hs : script w = fo :: wr :: cl :: rest) (Hfo : retptr fo <> NULL) :
  exists w' n,
    process_image data size w = Done 0 w' /\
    frame_jpg w' = Some (firstn n data) /\
    (n <= Z.to_nat (to_size_t size))%nat /\
    (size = 0 -> frame_jpg w' = Some []) /\
    script w' = rest.
Proof.
  eexists.
  exists (if succeeded cl
          then Z.to_nat (fwrite_accepted (to_size_t size) 1 wr)
          else Nat.min (Z.to_nat (out_flushed cl))
                       (Z.to_nat (fwrite_accepted (to_size_t size) 1 wr))).
  split; [exact (process_image_stored data size w fo wr cl rest Hs Hfo)|].
  assert (Hsz : 0 <= to_size_t size * 1).
  { unfold to_size_t. pose proof (Z.mod_pos_bound size (2 ^ 64)). lia. }
  pose proof (fwrite_accepted_bounds (to_size_t size) 1 wr Hsz) as Hb.
  wsimpl. unfold file_effect, stream_effect.
  apply Z.eqb_neq in Hfo. rewrite Hfo. cbn [app].
  split; [|split; [|split; [|reflexivity]]].
  - destruct (succeeded cl); [reflexivity|]. now rewrite firstn_firstn.
  - destruct (succeeded cl); lia.
  - intros ->. change (to_size_t 0) with 0 in *.
    replace (fwrite_accepted 0 1 wr) with 0 by lia.
    destruct (succeeded cl); [reflexivity|].
    cbn [Z.to_nat firstn]. now rewrite firstn_nil.
Qed.

Lemma stored_file_is_prefix_witness :
  exists w' n,
    process_image jpeg 6 (init_world (Some jpeg) [okv 7; okv 3; fails 5])
      = Done 0 w' /\
    frame_jpg w' = Some (firstn n jpeg) /\
    (n <= Z.to_nat (to_size_t 6))%nat /\
    (6 = 0 -> frame_jpg w' = Some []) /\
    script w' = [].
Proof.
  apply (stored_file_is_prefix jpeg 6
           (init_world (Some jpeg) [okv 7; okv 3; fails 5])
           (okv 7) (okv 3) (fails 5) [] eq_refl).
  discriminate.
Defined.

Lemma bytesused_conversion (n : Z) :
  0 <= n < 2 ^ 32 ->
  to_size_t (to_int n) = if n <? 2 ^ 31 then n else n + (2 ^ 64 - 2 ^ 32).
Proof.
  intros Hn. destruct (n <? 2 ^ 31) eqn:E.
  - apply Z.ltb_lt in E. apply to_size_to_int. lia.
  - apply Z.ltb_ge in E. unfold to_size_t, to_int. cbv zeta.
    rewrite (Z.mod_small n (2 ^ 32)) by lia.
    destruct (n <? 2 ^ 31) eqn:E'; [apply Z.ltb_lt in E'; lia|].
    replace (n - 2 ^ 32) with ((n + (2 ^ 64 - 2 ^ 32)) + (-1) * 2 ^ 64) by lia.
    rewrite Z.mod_add by lia. apply Z.mod_small. lia.
Qed.

(** X5. The turn of [read_frame] that brings the counter to 5 makes
    exactly four calls, DQBUF, fopen, fwrite and fclose, and returns 1
    whatever the last two answer.  [fwrite] is asked for [bytesused] bytes
    when that is below 2^31; a larger value, having passed through the
    [int] parameter of [process_image], arrives as [bytesused] plus
    2^64 - 2^32. *)
Theorem fifth_frame_calls (w : world) (dq fo wr cl : reply)
    (rest : list reply)
    (Hs : script w = dq :: fo :: wr :: cl :: rest)
    (Hok : succeeded dq = true)
    (H5 : frames_received w + 1 = STORE_AFTER_X_FRAMES)
    (Hfo : retptr fo <> NULL)
    (Hn : 0 <= out_bytesused dq < 2 ^ 32) :
  exists w',
    read_frame w = Done 1 w' /\
    script w' = rest /\
    trace w' =
      trace w ++
      [ (VIDIOC_DQBUF read_frame_buf, dq);
        (libc_fopen "frame.jpg" "wb", fo);
        (libc_fwrite (out_frame dq)
           (if out_bytesused dq <? 2 ^ 31 then out_bytesused dq
            else out_bytesused dq + (2 ^ 64 - 2 ^ 32)) 1, wr);
        (libc_fclose, cl) ].
Proof.
  rewrite (read_frame_dequeued w dq _ Hs Hok). cbv zeta.
  apply Z.eqb_eq in H5. rewrite H5. unfold bind at 1.
  erewrite process_image_stored; [|reflexivity|exact Hfo].
  eexists. split; [reflexivity|]. split; [reflexivity|].
  wsimpl. rewrite (bytesused_conversion _ Hn).
  unfold mapping_effect. rewrite Hok. now rewrite <- !app_assoc.
Qed.

Lemma fifth_frame_calls_witness :
  exists w',
    read_frame
      (set_frames_received 4
         (init_world None [filled 0 (2 ^ 32 - 1) jpeg; okv 7; okv 8; ok]))
    = Done 1 w' /\
    frame_jpg w' = Some jpeg.
Proof.
  destruct (fifth_frame_calls
              (set_frames_received 4
                 (init_world None [filled 0 (2 ^ 32 - 1) jpeg; okv 7; okv 8; ok]))
              (filled 0 (2 ^ 32 - 1) jpeg) (okv 7) (okv 8) ok []
              eq_refl eq_refl eq_refl) as (w' & Hr & _ & _).
  - discriminate.
  - cbn. lia.
  - exists w'. split; [exact Hr|].
    assert (E : Done 1 w' =
                read_frame
                  (set_frames_received 4
                     (init_world None
                        [filled 0 (2 ^ 32 - 1) jpeg; okv 7; okv 8; ok])))
      by (symmetry; exact Hr).
    vm_compute in E. injection E as ->. reflexivity.
Defined.

(** *** Failures before the stream is started ([open_device],
    [init_device], [main]) *)

(** X6. When the device cannot be opened, the run ends at once with exit
    code -1: [open] is the only call made, nothing is closed, and the
    output file is left as it was. *)
Theorem missing_device_exits_at_once (f0 : option (list Byte.byte))
    (o : reply) (rest : list reply) (Hfail : succeeded o = false) :
  exists w,
    run f0 (o :: rest) = Done (-1) w /\
    trace w = [(sys_open VIDEO_DEV (Z.lor O_RDWR O_NONBLOCK) 0, o)] /\
    script w = rest /\
    frame_jpg w = f0.
Proof.
  unfold succeeded in Hfail. destruct o as [[n|e] ? ? ? ? ? ? ?];
    cbn [rc] in Hfail; [discriminate|].
  eexists. split; [reflexivity|]. repeat split.
Qed.

Lemma missing_device_exits_at_once_witness :
  exists w,
    run (Some jpeg) [fails 2; ok] = Done (-1) w /\
    trace w = [(sys_open VIDEO_DEV (Z.lor O_RDWR O_NONBLOCK) 0, fails 2)] /\
    script w = [ok] /\
    frame_jpg w = Some jpeg.
Proof.
  exact (missing_device_exits_at_once (Some jpeg) (fails 2) [ok] eq_refl).
Defined.

(** X7. When the device opens but does not advertise both video capture
    and streaming, the run makes three calls, open, QUERYCAP and close of
    the descriptor that open returned, and ends with exit code -1: no
    format is set, no buffer requested or mapped. *)
Theorem missing_capability_closes (f0 : option (list Byte.byte))
    (o q c : reply) (rest : list reply)
    (Ho : succeeded o = true) (Hq : succeeded q = true)
    (Hcap : Z.land (out_caps q) V4L2_CAP_VIDEO_CAPTURE = 0 \/
            Z.land (out_caps q) V4L2_CAP_STREAMING = 0) :
  exists w,
    run f0 (o :: q :: c :: rest) = Done (-1) w /\
    trace w = [ (sys_open VIDEO_DEV (Z.lor O_RDWR O_NONBLOCK) 0, o);
                (VIDIOC_QUERYCAP, q);
                (sys_close (retval o), c) ] /\
    script w = rest /\
    frame_jpg w = f0.
Proof.
  assert (Hid : init_device
                  (set_fd (retval o)
                     (after_call (sys_open VIDEO_DEV (Z.lor O_RDWR O_NONBLOCK) 0)
                        o (q :: c :: rest) (init_world f0 (o :: q :: c :: rest))))
                = Done (-1)
                    (after_call VIDIOC_QUERYCAP q (c :: rest)
                       (set_fd (retval o)
                          (after_call
                             (sys_open VIDEO_DEV (Z.lor O_RDWR O_NONBLOCK) 0)
                             o (q :: c :: rest)
                             (init_world f0 (o :: q :: c :: rest)))))).
  { unfold init_device. rewrite bind_syscall. cbn [script set_fd after_call].
    rewrite retval_neg, Hq. cbn [negb]. cbv zeta.
    destruct Hcap as [H|H].
    - now rewrite H.
    - rewrite H. now destruct (Z.land (out_caps q) V4L2_CAP_VIDEO_CAPTURE =? 0). }
  eexists. split.
  - unfold run, main. unfold bind at 1.
    unfold open_device. rewrite bind_syscall. cbn [script init_world].
    unfold bind at 1. unfold modify at 1. unfold bind at 1. unfold gets at 1.
    cbn [_fd set_fd]. rewrite retval_neg, Ho. cbn [negb ret Z.eqb].
    unfold bind at 1. rewrite Hid. cbn [negb Z.eqb].
    unfold close_device. unfold bind at 1. unfold bind at 1. unfold gets at 1.
    rewrite bind_syscall. cbn [script after_call set_fd _fd].
    destruct (-1 =? retval c); reflexivity.
  - repeat split.
Qed.

Lemma missing_capability_closes_witness :
  exists w,
    run None [okv 3; caps V4L2_CAP_VIDEO_CAPTURE; ok] = Done (-1) w /\
    trace w = [ (sys_open VIDEO_DEV (Z.lor O_RDWR O_NONBLOCK) 0, okv 3);
                (VIDIOC_QUERYCAP, caps V4L2_CAP_VIDEO_CAPTURE);
                (sys_close (retval (okv 3)), ok) ] /\
    script w = [] /\
    frame_jpg w = None.
Proof.
  apply (missing_capability_closes None (okv 3)
           (caps V4L2_CAP_VIDEO_CAPTURE) ok [] eq_refl eq_refl).
  right. reflexivity.
Defined.

(** *** What the exit code says ([main]) *)

Ltac clean_leaf :=
  intros; unfold ctl_clean in *; wsimpl; rewrite ?count_snoc;
  unfold is_control_failure; cbn [fst snd is_control andb];
  status_cases; cbn [negb] in *; rewrite ?Nat.add_0_r;
  try assumption; try discriminate; try exact I.

Lemma open_device_clean w :
  ctl_clean w -> wp open_device (fun v w' => v = 0 -> ctl_clean w') any_world w.
Proof. intros H. unfold open_device. wp_run; clean_leaf. Qed.

Lemma init_device_clean w :
  ctl_clean w -> wp init_device (fun v w' => v = 0 -> ctl_clean w') any_world w.
Proof. intros H. unfold init_device. wp_run; clean_leaf. Qed.

Lemma init_mmap_clean w :
  ctl_clean w -> wp init_mmap (fun v w' => v = 0 -> ctl_clean w') any_world w.
Proof. intros H. unfold init_mmap. wp_run; clean_leaf. Qed.

Lemma start_capturing_clean w :
  ctl_clean w ->
  wp start_capturing (fun v w' => v = 0 -> ctl_clean w') any_world w.
Proof. intros H. unfold start_capturing. wp_run; clean_leaf. Qed.

Lemma process_image_clean data size w :
  ctl_clean w ->
  wp (process_image data size) (fun _ w' => ctl_clean w') any_world w.
Proof. intros H. unfold process_image. wp_run; clean_leaf. Qed.

Lemma read_frame_clean w :
  ctl_clean w -> wp read_frame (fun _ w' => ctl_clean w') any_world w.
Proof.
  intros H. unfold read_frame. wp_run; try solve [clean_leaf].
  wp_call process_image_clean; [clean_leaf| |exact I]. wp_run. assumption.
Qed.

Lemma select_loop_clean fuel : forall w,
  ctl_clean w -> wp (select_loop fuel) (fun _ w' => ctl_clean w') any_world w.
Proof.
  induction fuel as [|fuel IH]; intros w H; [exact I|].
  rewrite select_loop_unfold. wp_run; try solve [clean_leaf].
  - apply IH. clean_leaf.
  - wp_call read_frame_clean; [clean_leaf| |exact I]. wp_run; [assumption|].
    now apply IH.
Qed.

Lemma main_loop_clean w :
  ctl_clean w -> wp main_loop (fun _ w' => ctl_clean w') any_world w.
Proof.
  intros H. unfold main_loop, main_loop_from. wp_run; [|assumption].
  wp_call select_loop_clean; [assumption| |exact I]. wp_run; assumption.
Qed.

Lemma stop_capturing_last w :
  wp stop_capturing
     (fun v w' => exists r,
        trace w' = trace w ++ [(VIDIOC_STREAMOFF Vundef, r)] /\
        (v = 0 -> succeeded r = true))
     any_world w.
Proof.
  unfold stop_capturing. wp_run; try exact I; eexists; (split; [reflexivity|]);
    intros; status_cases; try reflexivity; discriminate.
Qed.

Lemma uninit_mmap_last w :
  wp uninit_mmap
     (fun v w' => exists r,
        trace w' = trace w ++ [(sys_munmap (_buffer w) (_len_buff w), r)] /\
        (v = 0 -> succeeded r = true /\ _buffer w' = NULL))
     any_world w.
Proof.
  unfold uninit_mmap. wp_run; try exact I; eexists; (split; [reflexivity|]);
    intros; status_cases; try (split; reflexivity); discriminate.
Qed.

Lemma close_device_last w :
  wp close_device
     (fun v w' => exists r,
        trace w' = trace w ++ [(sys_close (_fd w), r)] /\
        (v = 0 -> succeeded r = true) /\
        _buffer w' = _buffer w)
     any_world w.
Proof.
  unfold close_device. wp_run; try exact I; eexists; (split; [reflexivity|]);
    (split; [|reflexivity]); intros; status_cases; try reflexivity; discriminate.
Qed.

Lemma wp_any {A} (m : M A) w : wp m (fun _ _ => True) any_world w.
Proof. unfold wp. now destruct (m w). Qed.

Lemma clean_snoc t e :
  count is_control_failure t = 0%nat -> succeeded (snd e) = true ->
  count is_control_failure (t ++ [e]) = 0%nat.
Proof.
  intros H Hs. rewrite count_snoc, H. unfold is_control_failure.
  rewrite Hs. cbn [negb]. now rewrite andb_false_r.
Qed.

Ltac wp_skip :=
  eapply wp_mono; [apply wp_any | wsimpl; intros ? ? _ | wsimpl; intros ? _].

Ltac zero_or_not :=
  repeat match goal with
         | H : negb (?x =? 0) = true |- _ =>
             apply negb_true_iff, Z.eqb_neq in H
         | H : negb (?x =? 0) = false |- _ =>
             apply negb_false_iff, Z.eqb_eq in H
         end.

Lemma main_exit w :
  ctl_clean w ->
  wp main
     (fun c w' =>
        (c = 0 \/ c = -1) /\
        (c = 0 ->
         ctl_clean w' /\ _buffer w' = NULL /\
         exists t a b d len fd addr,
           trace w' = t ++ [ (VIDIOC_STREAMOFF Vundef, a);
                             (sys_munmap addr len, b);
                             (sys_close fd, d) ]))
     any_world w.
Proof.
  intros H0. unfold main.
  wp_step; wp_call open_device_clean; [exact H0| |exact I].
  wp_step; [wp_run; split; [auto|discriminate]|].
  wp_step; wp_call init_device_clean; [zero_or_not; auto| |exact I].
  wp_step.
  { wp_step; wp_skip; [|exact I]. wp_run. split; [auto|discriminate]. }
  wp_step; wp_call init_mmap_clean; [zero_or_not; auto| |exact I].
  wp_step.
  { wp_step; wp_skip; [|exact I]. wp_run. split; [auto|discriminate]. }
  wp_step; wp_call start_capturing_clean; [zero_or_not; auto| |exact I].
  wp_step.
  { wp_step; wp_skip; [|exact I]. wp_step; wp_skip; [|exact I].
    wp_run. split; [auto|discriminate]. }
  wp_step; wp_call main_loop_clean; [zero_or_not; auto| |exact I].
  wp_step.
  { wp_step; wp_skip; [|exact I]. wp_step; wp_skip; [|exact I].
    wp_run. split; [auto|discriminate]. }
  wp_step; wp_call stop_capturing_last; [|exact I].
  wp_step.
  { wp_step; wp_skip; [|exact I]. wp_step; wp_skip; [|exact I].
    wp_run. split; [auto|discriminate]. }
  wp_step; wp_call uninit_mmap_last; [|exact I].
  wp_step.
  { wp_step; wp_skip; [|exact I]. wp_run. split; [auto|discriminate]. }
  wp_step; wp_call close_device_last; [|exact I].
  wp_step; wp_run; (split; [auto|]); [discriminate|intros _].
  zero_or_not.
  repeat match goal with
         | H : exists _, _ |- _ => destruct H
         | H : _ /\ _ |- _ => destruct H
         end.
  repeat match goal with
         | H : ?x = 0, K : ?x = 0 -> _ |- _ => specialize (K H)
         end.
  repeat match goal with
         | H : _ /\ _ |- _ => destruct H
         end.
  split; [|split].
  - unfold ctl_clean in *.
    repeat match goal with
           | H : trace ?a = _ |- context [trace ?a] => rewrite H
           end.
    repeat apply clean_snoc; auto.
  - congruence.
  - repeat match goal with
           | H : trace ?a = _ |- context [trace ?a] => rewrite H
           end.
    rewrite <- !app_assoc. cbn [app]. eauto 10.
Qed.

(** X8. The exit code of a run is 0 or -1.  It is 0 only if no control
    call (open, QUERYCAP, S_FMT, REQBUFS, QUERYBUF, mmap, STREAMON,
    STREAMOFF, munmap, close) has failed, the last three calls were
    STREAMOFF, munmap and close, and [_buffer] has been reset to NULL. *)
Theorem exit_code_meaning f0 s c w (Hrun : run f0 s = Done c w) :
  (c = 0 \/ c = -1) /\
  (c = 0 ->
   count is_control_failure (trace w) = 0%nat /\
   _buffer w = NULL /\
   exists t a b d len fd addr,
     trace w = t ++ [ (VIDIOC_STREAMOFF Vundef, a);
                      (sys_munmap addr len, b);
                      (sys_close fd, d) ]).
Proof.
  exact (wp_done _ _ _ _ _ _ (main_exit (init_world f0 s) eq_refl) Hrun).
Qed.

Lemma exit_code_meaning_witness :
  count is_control_failure (trace (final (run None happy_script))) = 0%nat.
Proof.
  assert (Hrun : run None happy_script = Done 0 (final (run None happy_script)))
    by (vm_compute; reflexivity).
  destruct (exit_code_meaning None happy_script 0 _ Hrun) as [_ H].
  exact (proj1 (H eq_refl)).
Defined.

(** *** Every call is made after what it relies on *)

Lemma chain_nil : chain_ok [].
Proof. intros [|? ?] ? ? ?; discriminate. Qed.

Lemma chain_snoc t e :
  chain_ok t -> prereq t e = true -> allowed t e = true -> chain_ok (t ++ [e]).
Proof.
  intros Hc Hp Ha l1 x l2 E. apply snoc_split in E.
  destruct E as [(_ & -> & ->) | (l2' & _ & E)]; [auto|eauto].
Qed.

Lemma last_is_snoc p t e : last_is p (t ++ [e]) = p e.
Proof. unfold last_is. now rewrite rev_app_distr. Qed.

Lemma existsb_snoc (p : event -> bool) t e :
  existsb p (t ++ [e]) = existsb p t || p e.
Proof. rewrite existsb_app. cbn [existsb]. now rewrite orb_false_r. Qed.

Lemma existsb_weaken (p q : event -> bool) t :
  (forall e, p e = true -> q e = true) ->
  existsb p t = true -> existsb q t = true.
Proof.
  intros H Hp. apply existsb_exists in Hp. destruct Hp as (e & Hin & He).
  apply existsb_exists. eauto.
Qed.

Lemma open_with_ok fd t :
  existsb (is_open_with fd) t = true -> existsb is_open_ok t = true.
Proof.
  apply existsb_weaken. intros [c r]. unfold is_open_with, is_open_ok.
  cbn [fst snd]. destruct c; try discriminate.
  intros H. now apply andb_prop in H.
Qed.

Lemma mmap_with_ok a l t :
  existsb (is_mmap_with a l) t = true -> existsb is_mmap_ok t = true.
Proof.
  apply existsb_weaken. intros [c r]. unfold is_mmap_with, is_mmap_ok.
  cbn [fst snd]. destruct c; try discriminate.
  intros H. apply andb_prop in H. destruct H as [H _].
  now apply andb_prop in H.
Qed.

(** Goals about a trace to which known calls have been appended. *)
Ltac chain_facts :=
  unfold st_streaming, st_mapped, st_format, st_open, st_closing, seen in *;
  repeat match goal with
         | H : _ /\ _ |- _ => destruct H
         end;
  wsimpl;
  rewrite ?retval_neg, ?retval_m1, ?retval_map_failed in *;
  repeat match goal with
         | H : negb _ = true |- _ => apply negb_true_iff in H
         | H : negb _ = false |- _ => apply negb_false_iff in H
         end.

Lemma errno_effect_fail r e : succeeded r = false -> errno_effect r e <> 0.
Proof.
  unfold succeeded, errno_effect. destruct (rc r); [discriminate|].
  intros _. discriminate.
Qed.

Ltac chain_leaf :=
  repeat match goal with
         | |- _ /\ _ => split
         | |- _ -> _ => intro
         | |- chain_ok (_ ++ [_]) => apply chain_snoc
         | |- chain_ok [] => apply chain_nil
         end;
  try assumption;
  try match goal with
      | H : errno_effect ?r _ = 0, F : succeeded ?r = false |- _ =>
          exfalso; exact (errno_effect_fail r _ F H)
      end;
  unfold prereq, allowed; cbn [fst snd app];
  rewrite ?last_is_snoc, ?existsb_snoc;
  repeat match goal with
         | H : existsb _ _ = true |- _ => rewrite H
         end;
  try (erewrite open_with_ok by eassumption);
  try (erewrite mmap_with_ok by eassumption);
  cbn [existsb is_open_ok is_open_with is_capable is_s_fmt_ok is_reqbufs_ok
       is_querybuf_with is_mmap_ok is_mmap_with is_qbuf_ok is_streamon_ok
       is_select_ready is_dqbuf_ok is_fopen_ok is_fwrite is_close is_munmap
       fst snd];
  repeat match goal with
         | H : _ = true |- _ => rewrite H
         | H : _ = false |- _ => rewrite H
         end;
  rewrite ?Z.eqb_refl; cbn [negb andb orb]; rewrite ?orb_true_r;
  try reflexivity; try discriminate.

Lemma open_device_chain w :
  trace w = [] ->
  wp open_device
     (fun v w' => chain_ok (trace w') /\ (v = 0 -> st_open w'))
     (fun w' => chain_ok (trace w')) w.
Proof.
  intros H0. unfold open_device. wp_run; chain_facts; rewrite ?H0; chain_leaf.
Qed.

Lemma init_device_chain w :
  st_open w ->
  wp init_device
     (fun v w' => st_open w' /\ (v = 0 -> st_format w'))
     (fun w' => chain_ok (trace w')) w.
Proof. intros H0. unfold init_device. wp_run; chain_facts; chain_leaf. Qed.

Lemma init_mmap_chain w :
  st_format w ->
  wp init_mmap
     (fun v w' => st_open w' /\ (v = 0 -> st_mapped w'))
     (fun w' => chain_ok (trace w')) w.
Proof. intros H0. unfold init_mmap. wp_run; chain_facts; chain_leaf. Qed.

Lemma start_capturing_chain w :
  st_mapped w ->
  wp start_capturing
     (fun v w' => st_mapped w' /\ (v = 0 -> st_streaming w'))
     (fun w' => chain_ok (trace w')) w.
Proof. intros H0. unfold start_capturing. wp_run; chain_facts; chain_leaf. Qed.

Lemma process_image_chain data size w :
  st_streaming w -> last_is is_dqbuf_ok (trace w) = true ->
  wp (process_image data size) (fun _ => st_streaming)
     (fun w' => chain_ok (trace w')) w.
Proof.
  intros H0 Hl. unfold process_image. wp_run; chain_facts; chain_leaf.
Qed.

Lemma read_frame_chain w :
  st_streaming w -> last_is is_select_ready (trace w) = true ->
  wp read_frame (fun _ => st_streaming) (fun w' => chain_ok (trace w')) w.
Proof.
  intros H0 Hl. unfold read_frame. wp_run.
  4:{ wp_call process_image_chain.
      - chain_facts; chain_leaf.
      - chain_facts; chain_leaf.
      - wp_run. assumption.
      - assumption. }
  all: chain_facts; chain_leaf.
Qed.

Lemma select_loop_chain fuel : forall w,
  st_streaming w ->
  wp (select_loop fuel) (fun _ => st_streaming)
     (fun w' => chain_ok (trace w')) w.
Proof.
  induction fuel as [|fuel IH]; intros w H0; [apply H0|].
  rewrite select_loop_unfold. wp_run.
  - chain_facts; chain_leaf.
  - apply IH. chain_facts; chain_leaf.
  - chain_facts; chain_leaf.
  - chain_facts; chain_leaf.
  - wp_call read_frame_chain.
    + chain_facts; chain_leaf.
    + chain_facts; chain_leaf.
    + wp_run; [assumption|]. now apply IH.
    + assumption.
Qed.

Lemma main_loop_chain w :
  st_streaming w ->
  wp main_loop (fun _ => st_streaming) (fun w' => chain_ok (trace w')) w.
Proof.
  intros H0. unfold main_loop, main_loop_from. wp_run; [|assumption].
  wp_call select_loop_chain; [assumption| |assumption]. wp_run; assumption.
Qed.

Lemma stop_capturing_chain w :
  st_streaming w ->
  wp stop_capturing (fun _ => st_mapped) (fun w' => chain_ok (trace w')) w.
Proof. intros H0. unfold stop_capturing. wp_run; chain_facts; chain_leaf. Qed.

Lemma uninit_mmap_chain w :
  st_mapped w ->
  wp uninit_mmap (fun _ => st_closing) (fun w' => chain_ok (trace w')) w.
Proof. intros H0. unfold uninit_mmap. wp_run; chain_facts; chain_leaf. Qed.

Lemma close_device_chain w :
  st_closing w ->
  wp close_device (fun _ w' => chain_ok (trace w'))
     (fun w' => chain_ok (trace w')) w.
Proof. intros H0. unfold close_device. wp_run; chain_facts; chain_leaf. Qed.

Ltac stage :=
  zero_or_not;
  repeat match goal with
         | H : ?x = 0, K : ?x = 0 -> _ |- _ => specialize (K H)
         end;
  unfold st_streaming, st_mapped, st_format, st_open, st_closing in *;
  tauto.

Lemma main_chain w :
  trace w = [] ->
  wp main (fun _ w' => chain_ok (trace w')) (fun w' => chain_ok (trace w')) w.
Proof.
  intros H0. unfold main.
  wp_step; wp_call open_device_chain; [exact H0| |assumption].
  wp_step; [wp_run; stage|].
  wp_step; wp_call init_device_chain; [stage| |assumption].
  wp_step.
  { wp_step; wp_call close_device_chain; [stage| |assumption].
    wp_run. assumption. }
  wp_step; wp_call init_mmap_chain; [stage| |assumption].
  wp_step.
  { wp_step; wp_call close_device_chain; [stage| |assumption].
    wp_run. assumption. }
  wp_step; wp_call start_capturing_chain; [stage| |assumption].
  wp_step.
  { wp_step; wp_call uninit_mmap_chain; [stage| |assumption].
    wp_step; wp_call close_device_chain; [assumption| |assumption].
    wp_run. assumption. }
  wp_step; wp_call main_loop_chain; [stage| |assumption].
  wp_step.
  { wp_step; wp_call uninit_mmap_chain; [stage| |assumption].
    wp_step; wp_call close_device_chain; [assumption| |assumption].
    wp_run. assumption. }
  wp_step; wp_call stop_capturing_chain; [assumption| |assumption].
  wp_step.
  { wp_step; wp_call uninit_mmap_chain; [assumption| |assumption].
    wp_step; wp_call close_device_chain; [assumption| |assumption].
    wp_run. assumption. }
  wp_step; wp_call uninit_mmap_chain; [assumption| |assumption].
  wp_step.
  { wp_step; wp_call close_device_chain; [assumption| |assumption].
    wp_run. assumption. }
  wp_step; wp_call close_device_chain; [assumption| |assumption].
  wp_run; assumption.
Qed.

Lemma run_chain f0 s : chain_ok (trace (final (run f0 s))).
Proof.
  unfold run. apply (wp_final main (fun w => chain_ok (trace w))).
  now apply main_chain.
Qed.

(** X9. In every run, finished or blocked, each call comes after what it
    relies on.  [open] is the first call.  QUERYCAP follows a successful
    open; S_FMT directly follows a QUERYCAP that advertised capture and
    streaming; REQBUFS follows a successful S_FMT, QUERYBUF directly
    follows a successful REQBUFS, and mmap directly follows a successful
    QUERYBUF and is given the length and offset it reported.  A buffer is
    queued only after a successful mmap, STREAMON directly follows a
    successful QBUF, and select, DQBUF and STREAMOFF come after a
    successful STREAMON, a DQBUF directly after a select that found the
    descriptor readable.  fopen directly follows a successful DQBUF,
    fwrite a successful fopen, fclose the fwrite.  munmap is given the
    address a successful mmap returned and the length that mmap was
    given, close the descriptor a successful open returned. *)
Theorem calls_follow_their_prerequisites f0 s l1 e l2
    (Hsplit : trace (final (run f0 s)) = l1 ++ e :: l2) :
  prereq l1 e = true.
Proof. exact (proj1 (run_chain f0 s l1 e l2 Hsplit)). Qed.

Lemma calls_follow_their_prerequisites_witness :
  prereq (removelast (trace (final (run None happy_script)))) (sys_close 3, ok)
  = true.
Proof.
  apply (calls_follow_their_prerequisites None happy_script _ _ []).
  vm_compute. reflexivity.
Defined.

(** X10. In every run, finished or blocked, nothing is called once the
    descriptor has been closed, and once the buffer has been unmapped
    nothing is called but [close]: the buffer is not unmapped twice, not
    queued, dequeued or written to the file after munmap, and no ioctl is
    issued on a closed descriptor. *)
Theorem nothing_after_release f0 s l1 e l2
    (Hsplit : trace (final (run f0 s)) = l1 ++ e :: l2) :
  existsb is_close l1 = false /\
  (is_close e = false -> existsb is_munmap l1 = false).
Proof.
  pose proof (proj2 (run_chain f0 s l1 e l2 Hsplit)) as H.
  unfold allowed in H. destruct e as [c r]. unfold is_close. cbn [fst] in *.
  destruct c;
    repeat match goal with
           | H : _ && _ = true |- _ => apply andb_prop in H; destruct H
           | H : negb _ = true |- _ => apply negb_true_iff in H
           end;
    split; try assumption; intros; try assumption; discriminate.
Qed.

Lemma nothing_after_release_witness :
  existsb is_close (removelast (trace (final (run None happy_script)))) = false.
Proof.
  apply (nothing_after_release None happy_script _ (sys_close 3, ok) []).
  vm_compute. reflexivity.
Defined.

(** *** How [main_loop] ends (lines 183-219) *)

(** X11. When the descriptor is readable and the turn of [read_frame]
    that follows returns anything but 0, be it 1 after the fifth frame or
    the error number of a failed DQBUF or QBUF, [main_loop] ends the wait
    and returns 0. *)
Theorem frame_turn_ends_loop_with_zero (w : world) (sel : reply)
    (rest : list reply) (v : Z) (w2 : world)
    (Hs : script w = sel :: rest)
    (Hready : 0 < retval sel)
    (Hrf : read_frame (after_call (sys_select 2 0) sel rest w) = Done v w2)
    (Hv : v <> 0) :
  main_loop w = Done 0 w2.
Proof.
  change (main_loop w) with
    ((x <- select_loop (S (length (script w))) ;;
      match x with Some v => ret v | None => ret 0 end) w).
  unfold bind at 1.
  rewrite select_loop_unfold, bind_syscall, Hs. cbv zeta.
  destruct (select_ready sel Hready) as [-> ->].
  unfold bind at 1. rewrite Hrf.
  apply Z.eqb_neq in Hv. rewrite Hv. reflexivity.
Qed.

Lemma frame_turn_ends_loop_with_zero_witness :
  main_loop (init_world None [okv 1; fails 5]) =
  Done 0 (after_call (VIDIOC_DQBUF read_frame_buf) (fails 5) []
            (after_call (sys_select 2 0) (okv 1) [fails 5]
               (init_world None [okv 1; fails 5]))).
Proof.
  apply (frame_turn_ends_loop_with_zero (init_world None [okv 1; fails 5])
           (okv 1) [fails 5] EIO).
  - reflexivity.
  - reflexivity.
  - reflexivity.
  - discriminate.
Defined.

Lemma select_loop_result fuel : forall w,
  wp (select_loop fuel)
     (fun x w' =>
        match x with
        | Some v =>
            exists t sel,
              trace w' = t ++ [(sys_select 2 0, sel)] /\
              is_select_unready (sys_select 2 0, sel) = true /\
              v = errno w'
        | None => True
        end)
     any_world w.
Proof.
  induction fuel as [|fuel IH]; intros w; [exact I|].
  rewrite select_loop_unfold. wp_run; try exact I.
  - apply IH.
  - exists (trace w), r. repeat split.
    unfold is_select_unready; cbn [fst snd].
    apply Z.eqb_eq in Heqb. rewrite <- Heqb. reflexivity.
  - exists (trace w), r. repeat split.
    unfold is_select_unready; cbn [fst snd].
    apply Z.eqb_eq in Heqb0. rewrite <- Heqb0. reflexivity.
  - wp_skip; [|exact I]. wp_run; [exact I|apply IH].
Qed.

(** X12. [main_loop] returns a value other than 0 only straight after a
    [select] that failed or timed out, and the value is then what [errno]
    holds: no failure of DQBUF, QBUF, fopen, fwrite or fclose makes
    [main_loop] report an error. *)
Theorem main_loop_fails_only_on_select (w : world) (v : Z) (w' : world)
    (Hml : main_loop w = Done v w') (Hv : v <> 0) :
  exists t sel,
    trace w' = t ++ [(sys_select 2 0, sel)] /\
    retval sel <= 0 /\
    v = errno w'.
Proof.
  assert (H : wp main_loop
                (fun v w' => v <> 0 ->
                   exists t sel,
                     trace w' = t ++ [(sys_select 2 0, sel)] /\
                     retval sel <= 0 /\ v = errno w')
                any_world w).
  { unfold main_loop, main_loop_from. wp_run; [|congruence].
    wp_call select_loop_result; [|exact I].
    wp_run; [|congruence]. intros _.
    match goal with H : exists _, _ |- _ =>
      destruct H as (t & sel & Ht & Hu & He) end.
    exists t, sel. split; [exact Ht|]. split; [|exact He].
    unfold is_select_unready in Hu; cbn [fst snd] in Hu.
    now apply Z.leb_le. }
  exact (wp_done _ _ _ _ _ _ H Hml Hv).
Qed.

Lemma main_loop_fails_only_on_select_witness :
  exists t sel,
    trace (final (main_loop (init_world None [okv 1; fails 11; okv 0]))) =
      t ++ [(sys_select 2 0, sel)] /\
    retval sel <= 0 /\
    EAGAIN = errno (final (main_loop (init_world None [okv 1; fails 11; okv 0]))).
Proof.
  apply (main_loop_fails_only_on_select
           (init_world None [okv 1; fails 11; okv 0]) EAGAIN).
  - vm_compute. reflexivity.
  - discriminate.
Defined.

(** *** The loop stops at the fifth frame *)

Lemma wait_nil : wait_ok [].
Proof. intros [|? ?] ? ? ?; discriminate. Qed.

Lemma wait_snoc t e :
  wait_ok t ->
  (is_wait e = true ->
   (count is_dqbuf_ok t < Z.to_nat STORE_AFTER_X_FRAMES)%nat) ->
  wait_ok (t ++ [e]).
Proof.
  intros Hw He l1 x l2 E Hx. apply snoc_split in E.
  destruct E as [(_ & -> & ->) | (l2' & _ & E)]; [auto|eauto].
Qed.

Lemma wp_conj {A} (m : M A) Q1 Q2 R1 R2 w :
  wp m Q1 R1 w -> wp m Q2 R2 w ->
  wp m (fun a w' => Q1 a w' /\ Q2 a w') (fun w' => R1 w' /\ R2 w') w.
Proof. unfold wp. destruct (m w); auto. Qed.

Ltac wait_leaf :=
  wsimpl;
  repeat first
    [ assumption
    | apply wait_snoc; [|cbn; discriminate] ].

Lemma open_device_waitless : waitless open_device.
Proof. intros w H. unfold open_device. wp_run; wait_leaf. Qed.

Lemma init_device_waitless : waitless init_device.
Proof. intros w H. unfold init_device. wp_run; wait_leaf. Qed.

Lemma init_mmap_waitless : waitless init_mmap.
Proof. intros w H. unfold init_mmap. wp_run; wait_leaf. Qed.

Lemma start_capturing_waitless : waitless start_capturing.
Proof. intros w H. unfold start_capturing. wp_run; wait_leaf. Qed.

Lemma process_image_waitless data size : waitless (process_image data size).
Proof. intros w H. unfold process_image. wp_run; wait_leaf. Qed.

Lemma stop_capturing_waitless : waitless stop_capturing.
Proof. intros w H. unfold stop_capturing. wp_run; wait_leaf. Qed.

Lemma uninit_mmap_waitless : waitless uninit_mmap.
Proof. intros w H. unfold uninit_mmap. wp_run; wait_leaf. Qed.

Lemma close_device_waitless : waitless close_device.
Proof. intros w H. unfold close_device. wp_run; wait_leaf. Qed.

Lemma below_target f0 w :
  persist_inv f0 w -> frames_received w < STORE_AFTER_X_FRAMES ->
  (count is_dqbuf_ok (trace w) < Z.to_nat STORE_AFTER_X_FRAMES)%nat.
Proof.
  intros (Hn & _) Hlt. unfold STORE_AFTER_X_FRAMES in *.
  change (Z.to_nat 5) with 5%nat. lia.
Qed.

Lemma read_frame_wait f0 w :
  persist_inv f0 w -> frames_received w < STORE_AFTER_X_FRAMES ->
  wait_ok (trace w) ->
  wp read_frame (fun _ w' => wait_ok (trace w'))
     (fun w' => wait_ok (trace w')) w.
Proof.
  intros Hi Hlt Hw.
  assert (Hd : forall r, wait_ok (trace w ++ [(VIDIOC_DQBUF read_frame_buf, r)])).
  { intros r. apply wait_snoc; [exact Hw|]. intros _.
    exact (below_target f0 w Hi Hlt). }
  unfold read_frame. wp_run; try solve [wait_leaf]; try apply Hd.
  - wp_call process_image_waitless; [apply Hd| |assumption].
    wp_run. assumption.
  - apply wait_snoc; [apply Hd|cbn; discriminate].
  - apply wait_snoc; [apply Hd|cbn; discriminate].
Qed.

Lemma select_loop_wait f0 fuel : forall w,
  persist_inv f0 w -> frames_received w < STORE_AFTER_X_FRAMES ->
  wait_ok (trace w) ->
  wp (select_loop fuel) (fun _ w' => wait_ok (trace w'))
     (fun w' => wait_ok (trace w')) w.
Proof.
  induction fuel as [|fuel IH]; intros w Hi Hlt Hw; [exact Hw|].
  assert (Hsel : forall r, wait_ok (trace w ++ [(sys_select 2 0, r)])).
  { intros r. apply wait_snoc; [exact Hw|]. intros _.
    exact (below_target f0 w Hi Hlt). }
  assert (Hinv : forall r rest,
            persist_inv f0 (after_call (sys_select 2 0) r rest w)).
  { intros r rest. now apply persist_inv_neutral. }
  rewrite select_loop_unfold. wp_run; try apply Hsel; try assumption.
  - apply IH; [apply Hinv|exact Hlt|apply Hsel].
  - eapply wp_mono;
      [ apply wp_conj;
        [ apply (read_frame_inv f0); [apply Hinv|exact Hlt]
        | apply (read_frame_wait f0); [apply Hinv|exact Hlt|apply Hsel] ]
      | wsimpl; intros a w' [[Hi' Hz] Hw']
      | wsimpl; intros w' [_ Hw']; exact Hw' ].
    wp_run; [exact Hw'|].
    zero_or_not. apply IH; auto.
Qed.

Lemma main_loop_wait f0 w :
  persist_inv f0 w -> frames_received w < STORE_AFTER_X_FRAMES ->
  wait_ok (trace w) ->
  wp main_loop (fun _ w' => wait_ok (trace w'))
     (fun w' => wait_ok (trace w')) w.
Proof.
  intros Hi Hlt Hw. unfold main_loop, main_loop_from. wp_run; [|assumption].
  wp_call (select_loop_wait f0); try assumption. wp_run; assumption.
Qed.

(** A call of a function that neither dequeues nor waits, made before the
    loop. *)
Ltac wp_before_loop f0 Lq Lw :=
  wp_step;
  eapply wp_mono;
    [ apply wp_conj; [ apply (Lq f0); assumption | apply Lw; assumption ]
    | wsimpl; intros ? ? [[? ?] ?]
    | wsimpl; intros ? [_ ?]; assumption ].

Ltac wp_after_loop Lw :=
  wp_step; wp_call Lw; [assumption| |assumption].

Lemma main_wait f0 w :
  persist_inv f0 w -> frames_received w < STORE_AFTER_X_FRAMES ->
  wait_ok (trace w) ->
  wp main (fun _ w' => wait_ok (trace w')) (fun w' => wait_ok (trace w')) w.
Proof.
  intros Hi Hlt Hw. unfold main.
  wp_before_loop f0 @open_device_quiet open_device_waitless.
  wp_step; [wp_run; assumption|].
  wp_before_loop f0 @init_device_quiet init_device_waitless.
  wp_step.
  { wp_after_loop close_device_waitless. wp_run. assumption. }
  wp_before_loop f0 @init_mmap_quiet init_mmap_waitless.
  wp_step.
  { wp_after_loop close_device_waitless. wp_run. assumption. }
  wp_before_loop f0 @start_capturing_quiet start_capturing_waitless.
  wp_step.
  { wp_after_loop uninit_mmap_waitless. wp_after_loop close_device_waitless.
    wp_run. assumption. }
  wp_step; wp_call (main_loop_wait f0); try assumption; [congruence|].
  wp_step.
  { wp_after_loop uninit_mmap_waitless. wp_after_loop close_device_waitless.
    wp_run. assumption. }
  wp_after_loop stop_capturing_waitless.
  wp_step.
  { wp_after_loop uninit_mmap_waitless. wp_after_loop close_device_waitless.
    wp_run. assumption. }
  wp_after_loop uninit_mmap_waitless.
  wp_step.
  { wp_after_loop close_device_waitless. wp_run. assumption. }
  wp_after_loop close_device_waitless.
  wp_run; assumption.
Qed.

(** X13. In every run, finished or blocked, a readiness wait or a dequeue
    attempt is made only while fewer than five dequeues have succeeded:
    after the fifth frame the program neither waits nor dequeues again,
    so no run dequeues more than five frames. *)
Theorem no_wait_after_fifth_frame f0 s :
  (count is_dqbuf_ok (trace (final (run f0 s))) <= 5)%nat /\
  (forall l1 e l2,
     trace (final (run f0 s)) = l1 ++ e :: l2 ->
     is_select e = true \/ is_dqbuf e = true ->
     (count is_dqbuf_ok l1 < 5)%nat).
Proof.
  split.
  - destruct (run_inv f0 s) as (Hn & Hle & _).
    unfold STORE_AFTER_X_FRAMES in Hle. lia.
  - intros l1 e l2 E He.
    assert (H : wait_ok (trace (final (run f0 s)))).
    { unfold run. apply (wp_final main (fun w => wait_ok (trace w))).
      apply (main_wait f0); [apply persist_inv_init|reflexivity|apply wait_nil]. }
    apply (H l1 e l2 E). unfold is_wait.
    destruct He as [-> | ->]; [reflexivity|apply orb_true_r].
Qed.

Lemma no_wait_after_fifth_frame_witness :
  (count is_dqbuf_ok
     (firstn 8 (trace (final (run None Faulty.dequeue_error)))) < 5)%nat.
Proof.
  destruct (no_wait_after_fifth_frame None Faulty.dequeue_error) as [_ H].
  apply (H _ (sys_select 2 0, okv 1)
           (skipn 9 (trace (final (run None Faulty.dequeue_error))))).
  - vm_compute. reflexivity.
  - left. reflexivity.
Defined.

(** *** The calls each function makes *)

Lemma adds_only_refl P w : adds_only P w w.
Proof. exists []. split; [now rewrite app_nil_r|reflexivity]. Qed.

Lemma adds_only_call P c r rest w w0 :
  adds_only P w0 w -> P c = true -> adds_only P w0 (after_call c r rest w).
Proof.
  intros (evs & E & F) Hc. exists (evs ++ [(c, r)]). wsimpl. split.
  - now rewrite E, app_assoc.
  - rewrite forallb_app. apply andb_true_intro. split; [exact F|].
    cbn. now rewrite Hc.
Qed.

Lemma adds_only_trans P w1 w2 w3 :
  adds_only P w1 w2 -> adds_only P w2 w3 -> adds_only P w1 w3.
Proof.
  intros (e1 & E1 & F1) (e2 & E2 & F2). exists (e1 ++ e2). split.
  - now rewrite E2, E1, app_assoc.
  - rewrite forallb_app. apply andb_true_intro. now split.
Qed.

Lemma adds_only_same_trace P w0 w w' :
  trace w' = trace w -> adds_only P w0 w -> adds_only P w0 w'.
Proof. intros E (evs & E' & F). exists evs. now rewrite E. Qed.

Ltac calls_leaf :=
  repeat first
    [ apply adds_only_refl
    | assumption
    | apply adds_only_call; [|reflexivity]
    | eapply adds_only_same_trace; [reflexivity|] ].

Lemma open_device_calls : only_calls open_call open_device.
Proof. intros w. unfold open_device. wp_run; calls_leaf. Qed.

Lemma init_device_calls : only_calls init_device_call init_device.
Proof. intros w. unfold init_device. wp_run; calls_leaf. Qed.

Lemma init_mmap_calls : only_calls init_mmap_call init_mmap.
Proof. intros w. unfold init_mmap. wp_run; calls_leaf. Qed.

Lemma start_capturing_calls : only_calls start_call start_capturing.
Proof. intros w. unfold start_capturing. wp_run; calls_leaf. Qed.

Lemma process_image_calls data size :
  only_calls file_call (process_image data size).
Proof. intros w. unfold process_image. wp_run; calls_leaf. Qed.

Lemma adds_only_file_loop w w' : adds_only file_call w w' -> adds_only loop_call w w'.
Proof.
  intros (evs & E & F). exists evs. split; [exact E|].
  rewrite forallb_forall in *. intros e He. specialize (F e He).
  unfold loop_call. rewrite F. now destruct (fst e).
Qed.

Lemma read_frame_calls : only_calls loop_call read_frame.
Proof.
  intros w. unfold read_frame. wp_run; try solve [calls_leaf].
  wp_call process_image_calls.
  - wp_run. eapply adds_only_trans; [|apply adds_only_file_loop; eassumption].
    calls_leaf.
  - eapply adds_only_trans; [|apply adds_only_file_loop; eassumption].
    calls_leaf.
Qed.

Lemma select_loop_calls fuel : only_calls loop_call (select_loop fuel).
Proof.
  induction fuel as [|fuel IH]; intros w; [apply adds_only_refl|].
  rewrite select_loop_unfold. wp_run; try solve [calls_leaf].
  - wp_call IH; (eapply adds_only_trans; [|eassumption]); calls_leaf.
  - wp_call read_frame_calls.
    + wp_run.
      * eapply adds_only_trans; [|eassumption]. calls_leaf.
      * wp_call IH;
          (eapply adds_only_trans; [|eassumption]);
          (eapply adds_only_trans; [|eassumption]); calls_leaf.
    + eapply adds_only_trans; [|eassumption]. calls_leaf.
Qed.

Lemma main_loop_calls : only_calls loop_call main_loop.
Proof.
  intros w. unfold main_loop, main_loop_from. wp_run; [|apply adds_only_refl].
  wp_call select_loop_calls; [|assumption]. wp_run; assumption.
Qed.

Lemma stop_capturing_calls : only_calls stop_call stop_capturing.
Proof. intros w. unfold stop_capturing. wp_run; calls_leaf. Qed.

Lemma uninit_mmap_calls : only_calls munmap_call uninit_mmap.
Proof. intros w. unfold uninit_mmap. wp_run; calls_leaf. Qed.

Lemma close_device_calls : only_calls close_call close_device.
Proof. intros w. unfold close_device. wp_run; calls_leaf. Qed.

(** X14. Whether it returns or is left waiting for an answer, each
    function makes only the calls listed for it: [open_device] only open;
    [init_device] only QUERYCAP and S_FMT; [init_mmap] only REQBUFS,
    QUERYBUF and mmap; [start_capturing] only QBUF and STREAMON;
    [process_image] only fopen, fwrite and fclose; [read_frame] and
    [main_loop], however many turns the loop takes, only select, DQBUF,
    QBUF and the three file calls; [stop_capturing] only STREAMOFF;
    [uninit_mmap] only munmap; [close_device] only close. *)
Theorem call_footprints :
  only_calls open_call open_device /\
  only_calls init_device_call init_device /\
  only_calls init_mmap_call init_mmap /\
  only_calls start_call start_capturing /\
  (forall data size, only_calls file_call (process_image data size)) /\
  only_calls loop_call read_frame /\
  only_calls loop_call main_loop /\
  only_calls stop_call stop_capturing /\
  only_calls munmap_call uninit_mmap /\
  only_calls close_call close_device.
Proof.
  repeat split.
  - exact open_device_calls.
  - exact init_device_calls.
  - exact init_mmap_calls.
  - exact start_capturing_calls.
  - exact process_image_calls.
  - exact read_frame_calls.
  - exact main_loop_calls.
  - exact stop_capturing_calls.
  - exact uninit_mmap_calls.
  - exact close_device_calls.
Qed.

(** *** Once STREAMOFF has been issued *)

Lemma adds_only_no_stop P w w' :
  (forall c, P c = true -> stop_call c = false) ->
  adds_only P w w' ->
  count is_streamoff (trace w') = count is_streamoff (trace w).
Proof.
  intros HP (evs & E & F). rewrite E, count_app.
  assert (H : count is_streamoff evs = 0%nat); [|lia].
  clear E. induction evs as [|[c r] evs IH]; [reflexivity|].
  cbn [forallb fst] in F. apply andb_prop in F. destruct F as [Fc F].
  rewrite count_cons, (IH F).
  replace (is_streamoff (c, r)) with (stop_call c) by now destruct c.
  now rewrite (HP c Fc).
Qed.

Lemma sole_split (p : event -> bool) t x r : forall l1 e l2,
  count p t = 0%nat -> count p r = 0%nat -> p e = true ->
  t ++ x :: r = l1 ++ e :: l2 ->
  l1 = t /\ e = x /\ l2 = r.
Proof.
  induction t as [|a t IH]; intros l1 e l2 Ht Hr He E.
  - destruct l1 as [|b l1]; cbn [app] in E.
    + injection E as -> ->. auto.
    + injection E as _ ->. rewrite count_app, count_cons, He in Hr. lia.
  - rewrite count_cons in Ht. destruct (p a) eqn:Ha; [discriminate|].
    destruct l1 as [|b l1]; cbn [app] in E.
    + injection E as -> _. congruence.
    + injection E as <- E.
      destruct (IH l1 e l2 Ht Hr He E) as (-> & -> & ->). auto.
Qed.

Lemma keeps_stop_count P {A} (m : M A) :
  only_calls P m ->
  (forall c, P c = true -> stop_call c = false) ->
  forall w,
    wp m (fun _ w' => count is_streamoff (trace w') =
                      count is_streamoff (trace w))
       any_world w.
Proof.
  intros Hm HP w. eapply wp_mono; [apply Hm| |intros; exact I].
  intros a w' H. exact (adds_only_no_stop P w w' HP H).
Qed.

Ltac no_stop L :=
  wp_step;
  eapply wp_mono;
    [ apply (keeps_stop_count _ _ L); intros []; cbn; congruence
    | wsimpl; intros ? ? ?
    | intros; exact I ].

Ltac tail_last L :=
  wp_step; wp_call L; [|exact I];
  repeat match goal with
         | H : exists _, _ |- _ => destruct H
         | H : _ /\ _ |- _ => destruct H
         end.

Ltac tail_left :=
  left;
  repeat match goal with
         | H : count is_streamoff (trace ?a) = _ |- _ => rewrite H; clear H
         end;
  reflexivity.

Ltac tail_right :=
  right;
  repeat match goal with
         | H : trace ?a = _ |- context [trace ?a] => rewrite H
         end;
  rewrite <- ?app_assoc; cbn [app];
  do 7 eexists; split; [|reflexivity]; congruence.

Lemma main_tail w :
  count is_streamoff (trace w) = 0%nat ->
  wp main
     (fun _ w' =>
        count is_streamoff (trace w') = 0%nat \/
        exists t a b d addr len fd,
          count is_streamoff t = 0%nat /\
          trace w' = t ++ [ (VIDIOC_STREAMOFF Vundef, a);
                            (sys_munmap addr len, b);
                            (sys_close fd, d) ])
     any_world w.
Proof.
  intros H0. unfold main.
  no_stop open_device_calls.
  wp_step; [wp_run; tail_left|].
  no_stop init_device_calls.
  wp_step.
  { no_stop close_device_calls. wp_run. tail_left. }
  no_stop init_mmap_calls.
  wp_step.
  { no_stop close_device_calls. wp_run. tail_left. }
  no_stop start_capturing_calls.
  wp_step.
  { no_stop uninit_mmap_calls. no_stop close_device_calls. wp_run. tail_left. }
  no_stop main_loop_calls.
  wp_step.
  { no_stop uninit_mmap_calls. no_stop close_device_calls. wp_run. tail_left. }
  assert (Hz : count is_streamoff (trace w'3) = 0%nat) by congruence.
  tail_last stop_capturing_last.
  wp_step.
  { tail_last uninit_mmap_last. tail_last close_device_last.
    wp_run. tail_right. }
  tail_last uninit_mmap_last.
  wp_step.
  { tail_last close_device_last. wp_run. tail_right. }
  tail_last close_device_last.
  wp_run; tail_right.
Qed.

(** X15. In a run that exits, STREAMOFF is issued at most once, and once
    it has been issued the run goes on to munmap and close and makes no
    other call, whether or not STREAMOFF and munmap succeed. *)
Theorem stream_off_is_followed_by_teardown f0 s c w l1 e l2
    (Hrun : run f0 s = Done c w)
    (Hsplit : trace w = l1 ++ e :: l2)
    (He : is_streamoff e = true) :
  count is_streamoff l1 = 0%nat /\
  exists b d addr len fd,
    l2 = [ (sys_munmap addr len, b); (sys_close fd, d) ].
Proof.
  pose proof (wp_done _ _ _ _ _ _ (main_tail (init_world f0 s) eq_refl) Hrun)
    as [H | (t & a & b & d & addr & len & fd & Ht & E)].
  - rewrite Hsplit, count_app, count_cons, He in H. lia.
  - rewrite Hsplit in E. symmetry in E.
    apply (sole_split is_streamoff) in E; [| exact Ht | reflexivity | exact He].
    destruct E as (-> & -> & ->). split; [exact Ht|eauto 6].
Qed.

Lemma stream_off_is_followed_by_teardown_witness :
  exists b d addr len fd,
    skipn 11 (trace (final (run None Faulty.dequeue_error))) =
    [ (sys_munmap addr len, b); (sys_close fd, d) ].
Proof.
  assert (Hrun : run None Faulty.dequeue_error =
                 Done 0 (final (run None Faulty.dequeue_error)))
    by (vm_compute; reflexivity).
  refine (proj2 (stream_off_is_followed_by_teardown None Faulty.dequeue_error
                   0 _ (firstn 10 (trace (final (run None Faulty.dequeue_error))))
                   (VIDIOC_STREAMOFF Vundef, ok) _ Hrun _ _)).
  - vm_compute. reflexivity.
  - reflexivity.
Defined.

(** *** What [read_frame] returns when a buffer transfer fails
    (lines 162-180) *)

(** X16. When DQBUF fails with an error other than EAGAIN, [read_frame]
    returns that error number after this one call and the frame counter
    stays as it was.  When a frame other than the fifth has been dequeued
    and queueing its buffer again fails, [read_frame] returns the error
    number of QBUF, and the frame has been counted all the same. *)
Theorem transfer_failure_results (w : world) (dq : reply) (rest : list reply)
    (p : positive) (Hs : script w = dq :: rest) :
  let w1 := after_call (VIDIOC_DQBUF read_frame_buf) dq rest w in
  (rc dq = Fail p -> Z.pos p <> EAGAIN ->
   read_frame w = Done (Z.pos p) w1 /\
   frames_received w1 = frames_received w) /\
  (forall q rest',
     succeeded dq = true -> rest = q :: rest' -> rc q = Fail p ->
     frames_received w + 1 <> STORE_AFTER_X_FRAMES ->
     let w2 := after_call (VIDIOC_QBUF (dequeued_buf dq)) q rest'
                 (set_frames_received (frames_received w + 1) w1) in
     read_frame w = Done (Z.pos p) w2 /\
     frames_received w2 = frames_received w + 1).
Proof.
  intros w1. split.
  - intros Hf Hne. split; [|reflexivity].
    unfold read_frame. rewrite bind_syscall, Hs. fold w1.
    rewrite retval_neg. unfold succeeded. rewrite Hf. cbn [negb].
    unfold bind, gets.
    replace (errno w1) with (Z.pos p)
      by (unfold w1, after_call, errno_effect; cbn [errno]; now rewrite Hf).
    apply Z.eqb_neq in Hne. now rewrite Hne.
  - intros q rest' Hok -> Hq H5 w2. split; [|reflexivity].
    rewrite (read_frame_dequeued w dq _ Hs Hok). cbv zeta.
    apply Z.eqb_neq in H5. rewrite H5. fold w1.
    rewrite bind_syscall. cbn [script set_frames_received after_call w1].
    fold w1. fold w2. rewrite retval_neg. unfold succeeded. rewrite Hq.
    cbn [negb]. unfold gets.
    replace (errno w2) with (Z.pos p)
      by (unfold w2, after_call, errno_effect; cbn [errno]; now rewrite Hq).
    reflexivity.
Qed.

Lemma transfer_failure_results_witness :
  read_frame (init_world None [filled 0 8 jpeg; fails 5]) =
  Done EIO
    (after_call (VIDIOC_QBUF (dequeued_buf (filled 0 8 jpeg))) (fails 5) []
       (set_frames_received 1
          (after_call (VIDIOC_DQBUF read_frame_buf) (filled 0 8 jpeg)
             [fails 5] (init_world None [filled 0 8 jpeg; fails 5])))).
Proof.
  destruct (transfer_failure_results
              (init_world None [filled 0 8 jpeg; fails 5])
              (filled 0 8 jpeg) [fails 5] 5%positive eq_refl) as [_ H].
  apply (H (fails 5) [] eq_refl eq_refl eq_refl). discriminate.
Defined.
